(** * Shape enforcement for TPP matmuls and the TPP shape traits

    A shallow embedding of
      - [lib/Standalone/TppEnforcePrecondition.cpp]: the rewrite pattern
        [PadSIMDDimensionForGemm], which pads the operands of a
        [linalg.generic] tagged [tpp.matmul] and slices the result back;
      - [lib/TPP/Dialect/Tpp/TppTraits.cpp]: the two verifiers
        [verifyBroadcastableShape] and [verifyUnitStrideInnerLoop].

    Integers of the source ([int64_t], [unsigned]) are [Z]; the C++ [%] is
    [Z.rem]. The two lines that go through floating point are modelled with
    an exact round-to-nearest-even on rationals (section "Floating point"):
    [float] is IEEE-754 binary32, [double] is binary64, each operation is
    rounded once to its own format, in the default rounding mode.
    Assertions are taken as compiled in: a failed [assert] or checked cast
    ends the run. *)

From Stdlib Require Import ZArith List String Bool Lia SpecFloat.
Import ListNotations.
Open Scope Z_scope.

(* ================================================================== *)
(** ** Floating point *)

(** A finite binary floating-point value [mant * 2^expo]. The values met by
    the pattern lie between 2^-3 and 2^63 in magnitude, well inside the
    exponent range of both binary32 and binary64, so neither overflow nor
    subnormals arise and only the precision (24 or 53 bits) matters. *)
Record dyadic := Dy { mant : Z; expo : Z }.

(** The value of a [dyadic] as a fraction [num / den] with [den > 0]. *)
Definition num (x : dyadic) : Z :=
  if 0 <=? expo x then mant x * 2 ^ expo x else mant x.

Definition den (x : dyadic) : Z :=
  if 0 <=? expo x then 1 else 2 ^ (- expo x).

(** [b * 2^d <= a], for an exponent [d] of either sign. *)
Definition scaled_le (b d a : Z) : bool :=
  if 0 <=? d then b * 2 ^ d <=? a else b <=? a * 2 ^ (- d).

(** floor (log2 (a / b)) for [a, b > 0]. *)
Definition ilog2_ratio (a b : Z) : Z :=
  let d := Z.log2 a - Z.log2 b in
  if scaled_le b d a then d else d - 1.

(** Round the positive rational [a / b] to [p] significant bits, to nearest,
    ties to the even significand (the IEEE-754 default rounding). *)
Definition rne_pos (p a b : Z) : dyadic :=
  let e := ilog2_ratio a b in
  let sh := e + 1 - p in
  let n := if 0 <=? sh then a else a * 2 ^ (- sh) in
  let d := if 0 <=? sh then b * 2 ^ sh else b in
  let q := n / d in
  let r := n mod d in
  let q' := match 2 * r ?= d with
            | Lt => q
            | Gt => q + 1
            | Eq => if Z.even q then q else q + 1
            end in
  Dy q' sh.

Definition rne (p a b : Z) : dyadic :=
  match a with
  | 0 => Dy 0 0
  | Zpos _ => rne_pos p a b
  | Zneg _ => let x := rne_pos p (- a) b in Dy (- mant x) (expo x)
  end.

Definition float_prec : Z := 24.
Definition double_prec : Z := 53.

(** [(float)n] for an [int64_t] [n]. *)
Definition float_of_int64 (n : Z) : dyadic := rne float_prec n 1.

(** The usual arithmetic conversion float -> double is exact. *)
Definition double_of_float (x : dyadic) : dyadic := x.

(** An integer operand of a mixed [int * double] product becomes a double. *)
Definition double_of_int (n : Z) : dyadic := rne double_prec n 1.

(** A floating literal such as [16.0] or [6.0]. *)
Definition double_lit (k : positive) : dyadic := rne double_prec (Zpos k) 1.

(** [x / y] in binary64, for a divisor [y > 0]. *)
Definition double_div (x y : dyadic) : dyadic :=
  rne double_prec (num x * den y) (den x * num y).

(** [x * y] in binary64. *)
Definition double_mul (x y : dyadic) : dyadic :=
  rne double_prec (num x * num y) (den x * den y).

(** [std::ceil] on a double; the result is an integer-valued double. *)
Definition ceilZ (x : dyadic) : Z := - ((- num x) / den x).
Definition std_ceil (x : dyadic) : dyadic := Dy (ceilZ x) 0.

Definition int64_min : Z := - 2 ^ 63.
Definition int64_max : Z := 2 ^ 63 - 1.

(** Implicit conversion double -> [int64_t]: truncation toward zero; the
    behaviour is undefined when the truncated value does not fit. *)
Definition int64_of_double (x : dyadic) : option Z :=
  let t := Z.quot (num x) (den x) in
  if (int64_min <=? t) && (t <=? int64_max) then Some t else None.

(** [int64_t padded = k * std::ceil((float)dim / k.0);]
    (lines 78 and 116 of TppEnforcePrecondition.cpp, with k = 16 and 6). *)
Definition paddedTo (k : positive) (dim : Z) : option Z :=
  let q := double_div (double_of_float (float_of_int64 dim)) (double_lit k) in
  int64_of_double (double_mul (double_of_int (Zpos k)) (std_ceil q)).

Definition paddedSimdOf (simdDim : Z) : option Z := paddedTo 16 simdDim.
Definition paddedParallelOf (parallelDim : Z) : option Z := paddedTo 6 parallelDim.

(** The same computation with the binary32/binary64 operations of the
    standard library's IEEE-754 specification, used to cross-check the
    rounding model above on concrete inputs. *)
Definition sf_to_Z (x : spec_float) : option Z :=
  match x with
  | S754_zero _ => Some 0
  | S754_finite s m e =>
      let v := if 0 <=? e then Zpos m * 2 ^ e else Z.quot (Zpos m) (2 ^ (- e)) in
      Some (if s then - v else v)
  | _ => None
  end.

Definition sf_ceil (x : spec_float) : spec_float :=
  match x with
  | S754_finite s m e =>
      let n := if s then Zneg m else Zpos m in
      let c := if 0 <=? e then n * 2 ^ e else - ((- n) / 2 ^ (- e)) in
      binary_normalize 53 1024 c 0 s
  | _ => x
  end.

Definition sf_double_of_float (x : spec_float) : spec_float :=
  match x with
  | S754_finite s m e => binary_normalize 53 1024 (if s then Zneg m else Zpos m) e s
  | _ => x
  end.

Definition sf_paddedTo (k : positive) (dim : Z) : option Z :=
  let f := binary_normalize 24 128 dim 0 false in
  let kd := binary_normalize 53 1024 (Zpos k) 0 false in
  let q := SFdiv 53 1024 (sf_double_of_float f) kd in
  sf_to_Z (SFmul 53 1024 kd (sf_ceil q)).

(** Agreement of the two on one extent; where the exact model has the
    conversion to [int64_t] undefined, the value is out of range. *)
Definition agrees (k : positive) (dim : Z) : bool :=
  match paddedTo k dim, sf_paddedTo k dim with
  | Some a, Some b => a =? b
  | None, Some b => negb ((int64_min <=? b) && (b <=? int64_max))
  | _, _ => false
  end.

(** Extents around [m * 2^i], for i from 2 to 60. *)
Definition probes : list Z :=
  flat_map
    (fun i =>
       let p := 2 ^ Z.of_nat i in
       flat_map
         (fun m => [m * p - 3; m * p - 2; m * p - 1; m * p;
                    m * p + 1; m * p + 2; m * p + 3])
         [1; 3; 5; 6; 7])
    (seq 2 59).

(* ================================================================== *)
(** ** Types, attributes and values of the IR *)

(** The layout of a memref. *)
Inductive Layout :=
| StridedLayout (strides : list Z) (offset : Z)
| OtherLayout (name : string).

Inductive MType :=
| FloatType (width : Z)
| IndexType
| IntegerType (width : Z)
| RankedTensorType (shape : list Z) (elementType : MType)
| VectorType (shape : list Z) (elementType : MType)
| MemRefType (shape : list Z) (elementType : MType) (layout : Layout)
| OtherType (name : string).

(** [type.isa<ShapedType>()] *)
Definition isShapedType (t : MType) : bool :=
  match t with
  | RankedTensorType _ _ | VectorType _ _ | MemRefType _ _ _ => true
  | _ => false
  end.

Definition isMemRefType (t : MType) : bool :=
  match t with MemRefType _ _ _ => true | _ => false end.

(** [type.cast<ShapedType>().getShape()], [None] when the cast asserts. *)
Definition shapeOfType (t : MType) : option (list Z) :=
  match t with
  | RankedTensorType s _ | VectorType s _ | MemRefType s _ _ => Some s
  | _ => None
  end.

(** [type.cast<ShapedType>().getElementType()] *)
Definition elementTypeOf (t : MType) : option MType :=
  match t with
  | RankedTensorType _ e | VectorType _ e | MemRefType _ e _ => Some e
  | _ => None
  end.

(** Modelled from the spec: [ShapedType::kDynamic], the sentinel
    "dynamic/unknown" extent of a TensorShape, is declared by the IR layer
    and not under src/; it is the least [int64_t]. *)
Definition kDynamic : Z := int64_min.

Definition isDynamic (d : Z) : bool := d =? kDynamic.

Inductive Attribute :=
| FloatAttr (type : MType) (value : Z)
| IntegerAttr (type : MType) (value : Z)
| DenseElementsAttr (type : MType) (element : Attribute).

(** [APInt(width, v)]: the low [width] bits of [v]. *)
Definition APInt (width v : Z) : Z := v mod 2 ^ width.

(** [getOneAttr]; [None] is the null attribute [{}]. *)
Fixpoint getOneAttr (type : MType) : option Attribute :=
  match type with
  | FloatType _ => Some (FloatAttr type 1)
  | IndexType => Some (IntegerAttr IndexType 1)
  | IntegerType w => Some (IntegerAttr type (APInt w 1))
  | RankedTensorType _ e | VectorType _ e =>
      match getOneAttr e with
      | None => None
      | Some element => Some (DenseElementsAttr type element)
      end
  | _ => None
  end.

(** Modelled from the spec: [Builder::getZeroAttr] belongs to the IR layer
    and is not under src/. The source says of [getOneAttr] "See getZeroAttr",
    and the spec derives both fills from the element type (float, integer or
    index; tensor and vector elements element-wise): the additive identity. *)
Fixpoint getZeroAttr (type : MType) : option Attribute :=
  match type with
  | FloatType _ => Some (FloatAttr type 0)
  | IndexType => Some (IntegerAttr IndexType 0)
  | IntegerType w => Some (IntegerAttr type (APInt w 0))
  | RankedTensorType _ e | VectorType _ e =>
      match getZeroAttr e with
      | None => None
      | Some element => Some (DenseElementsAttr type element)
      end
  | _ => None
  end.

(** An SSA value: one defined outside the pattern, or the result of an
    [arith.constant] or of the [tensor.pad] built by
    [tensor::createPadHighOp(type, source, pad, nofold, loc, b)]. *)
Inductive Value :=
| Opaque (id : nat) (type : MType)
| ConstantOp (type : MType) (value : option Attribute)
| PadHighOp (type : MType) (source pad : Value) (nofold : bool).

Definition getType (v : Value) : MType :=
  match v with
  | Opaque _ t | ConstantOp t _ | PadHighOp t _ _ _ => t
  end.

Record GenericOp := {
  inputs : list Value;
  outputs : list Value;
  resultTypes : list MType;
  indexingMaps : list string;
  iteratorTypes : list string;
  doc : string;
  libraryCall : string
}.

Definition getOperands (op : GenericOp) : list Value := inputs op ++ outputs op.
Definition getLibraryCallName (op : GenericOp) : string := libraryCall op.

(** [tensor.extract_slice] of result [sliceResult] of [sliceSource], with
    static offsets, sizes and strides. *)
Record ExtractSliceOp := {
  sliceSource : GenericOp;
  sliceResult : nat;
  offsets : list Z;
  sizes : list Z;
  strides : list Z
}.

(** Modelled from the spec: the result type that the IR layer's slice
    constructor infers is not under src/; a slice with static sizes has
    these sizes as its shape and the element type of its source. *)
Definition extractResultType (e : ExtractSliceOp) : option MType :=
  match nth_error (resultTypes (sliceSource e)) (sliceResult e) with
  | Some t => option_map (RankedTensorType (sizes e)) (elementTypeOf t)
  | None => None
  end.

(** What the pattern asks of the [PatternRewriter], in program order. *)
Inductive Event :=
| Create (v : Value)
| CreateGeneric (g : GenericOp)
| InlineRegionBefore (from to : GenericOp)
| CreateExtractSlice (e : ExtractSliceOp)
| ReplaceOp (old : GenericOp) (by_ : ExtractSliceOp).

Inductive LogicalResult := success | failure.

(* ================================================================== *)
(** ** Executions: rewriter log, assertions, undefined behaviour *)

Inductive Exec (A : Type) :=
| Ok (a : A)
| AssertionFailure (msg : string)
| UndefinedBehaviour.
Arguments Ok {A} a.
Arguments AssertionFailure {A} msg.
Arguments UndefinedBehaviour {A}.

(** A computation that appends to the rewriter's log. *)
Definition Rw (A : Type) : Type := list Event -> Exec (A * list Event).

Definition ret {A} (a : A) : Rw A := fun log => Ok (a, log).

Definition bind {A B} (m : Rw A) (k : A -> Rw B) : Rw B :=
  fun log =>
    match m log with
    | Ok (a, log') => k a log'
    | AssertionFailure msg => AssertionFailure msg
    | UndefinedBehaviour => UndefinedBehaviour
    end.

Declare Scope rw_scope.
Delimit Scope rw_scope with rw.
Notation "x <- m ;; k" := (bind m (fun x => k))
  (at level 61, m at next level, right associativity) : rw_scope.
Notation "m ;;; k" := (bind m (fun _ => k))
  (at level 61, right associativity) : rw_scope.
Open Scope rw_scope.

Definition emit (e : Event) : Rw unit := fun log => Ok (tt, log ++ [e]).

(** [assert(cond && msg)] *)
Definition assert (cond : bool) (msg : string) : Rw unit :=
  fun log => if cond then Ok (tt, log) else AssertionFailure msg.

(** A cast or an index that the source leaves to an assertion. *)
Definition checked {A} (o : option A) (msg : string) : Rw A :=
  fun log => match o with Some a => Ok (a, log) | None => AssertionFailure msg end.

(** A conversion whose result is undefined when absent. *)
Definition defined {A} (o : option A) : Rw A :=
  fun log => match o with Some a => Ok (a, log) | None => UndefinedBehaviour end.

(** [v.getType().cast<ShapedType>().getShape()] *)
Definition getShapeOf (v : Value) : Rw (list Z) :=
  checked (shapeOfType (getType v)) "cast<ShapedType>".

(** [v.getType().cast<ShapedType>().getElementType()] *)
Definition getElementTypeOf (v : Value) : Rw MType :=
  checked (elementTypeOf (getType v)) "cast<ShapedType>".

(** [shape[i]] on an [ArrayRef]. *)
Definition at_ (shape : list Z) (i : nat) : Rw Z :=
  checked (nth_error shape i) "Invalid index!".

(** [rewriter.create<arith::ConstantOp>(loc, type, attr)] *)
Definition createConstant (type : MType) (attr : option Attribute) : Rw Value :=
  let v := ConstantOp type attr in emit (Create v) ;;; ret v.

(** [tensor::createPadHighOp(type, source, pad, nofold, loc, rewriter)] *)
Definition createPadHighOp (type : MType) (source pad : Value) (nofold : bool)
  : Rw Value :=
  let v := PadHighOp type source pad nofold in emit (Create v) ;;; ret v.

(* ================================================================== *)
(** ** The pattern [PadSIMDDimensionForGemm] *)

Record GemmOperands := { A : Value; B : Value; C : Value }.

(** [padSIMDDimension]; the updated operands are returned. *)
Definition padSIMDDimension (operands : GemmOperands) (simdDim : Z)
  : Rw GemmOperands :=
  if Z.rem simdDim 16 =? 0 then ret operands
  else
    paddedSimd <- defined (paddedSimdOf simdDim) ;;
    shapeB <- getShapeOf (B operands) ;;
    shapeC <- getShapeOf (C operands) ;;
    c0 <- at_ shapeC 0 ;;
    b0 <- at_ shapeB 0 ;;
    let newShapeC := [c0; paddedSimd] in
    let newShapeB := [b0; paddedSimd] in
    eltC <- getElementTypeOf (C operands) ;;
    eltB <- getElementTypeOf (B operands) ;;
    let newRankedC := RankedTensorType newShapeC eltC in
    let newRankedB := RankedTensorType newShapeB eltB in
    padZero <- createConstant eltC (getZeroAttr eltC) ;;
    padOne <- createConstant eltB (getOneAttr eltB) ;;
    paddedC <- createPadHighOp newRankedC (C operands) padZero false ;;
    paddedB <- createPadHighOp newRankedB (B operands) padOne false ;;
    ret {| A := A operands; B := paddedB; C := paddedC |}.

(** [padParallelDimension] *)
Definition padParallelDimension (operands : GemmOperands) (parallelDim : Z)
  : Rw GemmOperands :=
  if Z.rem parallelDim 6 =? 0 then ret operands
  else
    paddedParallel <- defined (paddedParallelOf parallelDim) ;;
    shapeA <- getShapeOf (A operands) ;;
    shapeC <- getShapeOf (C operands) ;;
    c1 <- at_ shapeC 1 ;;
    a1 <- at_ shapeA 1 ;;
    let newShapeC := [paddedParallel; c1] in
    let newShapeA := [paddedParallel; a1] in
    eltC <- getElementTypeOf (C operands) ;;
    eltA <- getElementTypeOf (A operands) ;;
    let newRankedC := RankedTensorType newShapeC eltC in
    let newRankedA := RankedTensorType newShapeA eltA in
    padZero <- createConstant eltC (getZeroAttr eltC) ;;
    eltB <- getElementTypeOf (B operands) ;;
    padOne <- createConstant eltB (getOneAttr eltB) ;;
    paddedC <- createPadHighOp newRankedC (C operands) padZero false ;;
    paddedA <- createPadHighOp newRankedA (A operands) padOne false ;;
    ret {| A := paddedA; B := B operands; C := paddedC |}.

(** The test of line 174: nothing to pad. *)
Definition isCompliant (simdDim parallelDim : Z) : bool :=
  (Z.rem simdDim 16 =? 0) && (Z.rem parallelDim 6 =? 0).

(** The loop of lines 195-199 from index [r] on, with [todo = rank - r]
    iterations to go. *)
Fixpoint sliceLoop (shapeC : list Z) (todo : nat) (r : nat)
  (acc : list Z * list Z * list Z) : Rw (list Z * list Z * list Z) :=
  match todo with
  | O => ret acc
  | S todo' =>
      let '(offs, szs, strs) := acc in
      d <- at_ shapeC r ;;
      sliceLoop shapeC todo' (S r) (offs ++ [0], szs ++ [d], strs ++ [1])
  end.

(** [padDimensions] *)
Definition padDimensions (linalgOp : GenericOp) : Rw LogicalResult :=
  a <- checked (nth_error (getOperands linalgOp) 0) "getOperand" ;;
  b <- checked (nth_error (getOperands linalgOp) 1) "getOperand" ;;
  c <- checked (nth_error (getOperands linalgOp) 2) "getOperand" ;;
  let operands := {| A := a; B := b; C := c |} in
  if negb (isShapedType (getType c)) || negb (isShapedType (getType b))
     || negb (isShapedType (getType a))
  then ret failure
  else
    shapeC <- getShapeOf c ;;
    shapeB <- getShapeOf b ;;
    shapeA <- getShapeOf a ;;
    assert (Nat.eqb (List.length shapeC) 2) "expect 2d gemm" ;;;
    assert (Nat.eqb (List.length shapeB) 2) "expect 2d gemm" ;;;
    assert (Nat.eqb (List.length shapeA) 2) "expect 2d gemm" ;;;
    c1 <- at_ shapeC 1 ;; b1 <- at_ shapeB 1 ;;
    assert (c1 =? b1) "expect equal" ;;;
    c0 <- at_ shapeC 0 ;; a0 <- at_ shapeA 0 ;;
    assert (c0 =? a0) "expect equal" ;;;
    a1 <- at_ shapeA 1 ;; b0 <- at_ shapeB 0 ;;
    assert (a1 =? b0) "expect equal" ;;;
    let simdDim := c1 in
    let parallelDim := c0 in
    if isCompliant simdDim parallelDim then ret failure
    else
      operands <- padSIMDDimension operands simdDim ;;
      operands <- padParallelDimension operands parallelDim ;;
      let replacementOp :=
        {| inputs := [A operands; B operands];
           outputs := [C operands];
           resultTypes := [getType (C operands)];
           indexingMaps := indexingMaps linalgOp;
           iteratorTypes := iteratorTypes linalgOp;
           doc := EmptyString;
           libraryCall := "tpp.matmul" |} in
      emit (CreateGeneric replacementOp) ;;;
      emit (InlineRegionBefore linalgOp replacementOp) ;;;
      let rank := List.length shapeC in
      slice <- sliceLoop shapeC rank 0%nat ([], [], []) ;;
      let '(offs, szs, strs) := slice in
      let extract :=
        {| sliceSource := replacementOp; sliceResult := 0;
           offsets := offs; sizes := szs; strides := strs |} in
      emit (CreateExtractSlice extract) ;;;
      emit (ReplaceOp linalgOp extract) ;;;
      ret success.

Section Pattern.

(** Predicates of the IR layer and of TppUtils that are not under src/. *)
Variable hasTensorSemantics : GenericOp -> bool.
Variable hasStaticShape : GenericOp -> bool.
Variable hasTppMark : GenericOp -> bool.

(** [matchAndRewrite] *)
Definition matchAndRewrite (linalgOp : GenericOp) : Rw LogicalResult :=
  if negb (hasTensorSemantics linalgOp) || negb (hasStaticShape linalgOp)
     || negb (hasTppMark linalgOp)
  then ret failure
  else
    let libraryCall := getLibraryCallName linalgOp in
    if negb (String.eqb libraryCall "tpp.matmul") then ret failure
    else padDimensions linalgOp.

End Pattern.

(* ================================================================== *)
(** ** TppTraits: diagnostics and operations *)

(** A diagnostic attached to the verified operation: [op->emitOpError(msg)],
    or [op->emitError() << msg << idx]. *)
Inductive Diagnostic :=
| OpError (msg : string)
| Error (msg : string) (idx : nat).

(** What a verifier returns, with the diagnostics it has emitted. *)
Definition Verdict : Type := LogicalResult * list Diagnostic.

(** [if (emitDiagnostic) return <diagnostic>; return failure();] *)
Definition fail_with (emitDiagnostic : bool) (d : Diagnostic) : Verdict :=
  if emitDiagnostic then (failure, [d]) else (failure, []).

(** An operation under verification, seen through its operands. *)
Record Operation := { opOperands : list Value }.

Definition getOperandTypes (op : Operation) : list MType :=
  map getType (opOperands op).

(** [getShape] *)
Definition getShape (type : MType) : list Z :=
  match shapeOfType type with
  | Some s => s
  | None => []
  end.

(** The lambda [isCompatible] of [isCompatibleInferredReturnShape]. *)
Definition isCompatible (dim1 dim2 : Z) : bool :=
  (dim1 =? dim2) || isDynamic dim1 || isDynamic dim2 || (dim1 =? 1).

(** The loop over [llvm::zip_equal(inferred, existing)]. *)
Fixpoint zipCompatible (inferred existing : list Z) : bool :=
  match inferred, existing with
  | d1 :: inferred', d2 :: existing' =>
      if negb (isCompatible d1 d2) then false
      else zipCompatible inferred' existing'
  | _, _ => true
  end.

(** [isCompatibleInferredReturnShape] *)
Definition isCompatibleInferredReturnShape (inferred existing : list Z) : bool :=
  if negb (Nat.eqb (List.length inferred) (List.length existing)) then false
  else zipCompatible inferred existing.

(** [ArrayRef::take_back(n)]: the last [n] elements, all of them when there
    are fewer. *)
Definition take_back (n : nat) (l : list Z) : list Z :=
  skipn (List.length l - n) l.

(** Modelled from the spec: [OpTrait::util::getBroadcastedShape] belongs to
    the IR layer and is not under src/. Dimensions align from the trailing
    end; two dimensions are compatible if equal, if either is 1, or if
    either is dynamic; the result extent is the one that is neither 1 nor
    dynamic when there is one. One dimension: *)
Definition broadcastDim (d1 d2 : Z) : option Z :=
  if isDynamic d1 || isDynamic d2 then
    if 1 <? d1 then Some d1
    else if 1 <? d2 then Some d2
    else if d1 =? 1 then Some d2
    else if d2 =? 1 then Some d1
    else Some kDynamic
  else if (d1 =? d2) || (d2 =? 1) then Some d1
  else if d1 =? 1 then Some d2
  else None.

(** Modelled from the spec: the walk of [getBroadcastedShape] from the
    trailing end, on the reversed shapes; the longer shape supplies the
    leading dimensions. *)
Fixpoint broadcastRev (r1 r2 : list Z) : option (list Z) :=
  match r1, r2 with
  | [], _ => Some r2
  | _, [] => Some r1
  | d1 :: r1', d2 :: r2' =>
      match broadcastDim d1 d2, broadcastRev r1' r2' with
      | Some d, Some ds => Some (d :: ds)
      | _, _ => None
      end
  end.

(** Modelled from the spec: [getBroadcastedShape(shape1, shape2, result)];
    [None] is the return value [false]. *)
Definition getBroadcastedShape (shape1 shape2 : list Z) : option (list Z) :=
  option_map (@rev Z) (broadcastRev (rev shape1) (rev shape2)).

(** The loop of lines 44-53: [Some] of the final [resultShape], or [None]
    when a pair of shapes does not broadcast. *)
Fixpoint broadcastLoop (resultShape : list Z) (inputTypes : list MType)
  : option (list Z) :=
  match inputTypes with
  | [] => Some resultShape
  | other :: rest =>
      let temp := resultShape in
      match getBroadcastedShape temp (getShape other) with
      | None => None
      | Some resultShape' => broadcastLoop resultShape' rest
      end
  end.

(** [verifyCompatibleOperandBroadcast] *)
Definition verifyCompatibleOperandBroadcast (inputTypes : list MType)
  (outputType : MType) (emitDiagnostic : bool) : Verdict :=
  match inputTypes with
  | [] => (success, [])
  | front :: _ =>
      let resultShape :=
        match getBroadcastedShape (getShape front) [] with
        | Some s => s
        | None => []
        end in
      match broadcastLoop resultShape inputTypes with
      | None =>
          fail_with emitDiagnostic
            (OpError "operands don't have broadcast-compatible shapes")
      | Some resultShape =>
          let actualSuffix :=
            take_back (List.length resultShape) (getShape outputType) in
          if negb (isCompatibleInferredReturnShape resultShape actualSuffix)
          then fail_with emitDiagnostic
                 (OpError "result type not broadcast compatible with broadcasted operands's shapes")
          else (success, [])
      end
  end.

(** [verifyBroadcastableShape]; with no operand at all, [size() - 1] wraps
    and [operandTypes[0]] is out of range. *)
Definition verifyBroadcastableShape (op : Operation) (emitDiagnostic : bool)
  : Exec Verdict :=
  let operandTypes := getOperandTypes op in
  match rev operandTypes with
  | [] => AssertionFailure "Invalid index!"
  | last :: _ =>
      let inputOperandTypes := firstn (List.length operandTypes - 1) operandTypes in
      Ok (verifyCompatibleOperandBroadcast inputOperandTypes last emitDiagnostic)
  end.

Definition checkBroadcastableShape (op : Operation) : Exec Verdict :=
  verifyBroadcastableShape op false.

Section UnitStride.

(** [getStridesAndOffset(t, strides, offset)] belongs to the IR layer and
    is not under src/. It is handed the vector [strides], which the
    verifier declares once, before its loop: the parameter maps the memref
    type and the current contents of the vector to [None] on failure, or to
    the new contents and the offset. A helper that overwrites the vector
    and one that appends to it are both instances. *)
Variable getStridesAndOffset : MType -> list Z -> option (list Z * Z).

(** The loop of [verifyUnitStrideInnerLoop] from operand number [idx] on,
    [strides] being the contents of the vector. [offset] is written by the
    callee and never read. *)
Fixpoint unitStrideLoop (emitDiagnostic : bool) (idx : nat) (strides : list Z)
  (operands : list Value) : Exec Verdict :=
  match operands with
  | [] => Ok (success, [])
  | operand :: rest =>
      let operandType := getType operand in
      if negb (isShapedType operandType) then Ok (success, [])
      else if negb (isMemRefType operandType)
      then AssertionFailure "cast<MemRefType>"
      else
        match getStridesAndOffset operandType strides with
        | None =>
            Ok (fail_with emitDiagnostic
                  (Error "failed to compute strides for operand " idx))
        | Some (strides', offset) =>
            match rev strides' with
            | [] => Ok (failure, [])
            | back :: _ =>
                if negb (back =? 1)
                then Ok (fail_with emitDiagnostic
                           (Error "non-unit stride in the innermost varying dimension for operand " idx))
                else unitStrideLoop emitDiagnostic (S idx) strides' rest
            end
        end
  end.

(** [verifyUnitStrideInnerLoop] *)
Definition verifyUnitStrideInnerLoop (op : Operation) (emitDiagnostic : bool)
  : Exec Verdict :=
  unitStrideLoop emitDiagnostic 0 [] (opOperands op).

Definition checkUnitStrideInnerLoop (op : Operation) : Exec Verdict :=
  verifyUnitStrideInnerLoop op false.

(** The loop examines the operands [pre] one after the other without
    returning, and leaves the vector with the contents it returns: each is
    a memref whose strides are computed, not empty, and end in 1. *)
Fixpoint examined (strides : list Z) (pre : list Value) : option (list Z) :=
  match pre with
  | [] => Some strides
  | operand :: rest =>
      if isMemRefType (getType operand) then
        match getStridesAndOffset (getType operand) strides with
        | Some (strides', _) =>
            match rev strides' with
            | back :: _ => if back =? 1 then examined strides' rest else None
            | [] => None
            end
        | None => None
        end
      else None
  end.

End UnitStride.

(** Modelled from the spec: [stridesAndOffset(layout)], which is not under
    src/, yields the strides and the offset of a strided layout, and a
    LayoutError for a layout it does not support. The vector then holds the
    strides of the layout. *)
Definition stridesOfLayout (t : MType) (strides : list Z) : option (list Z * Z) :=
  match t with
  | MemRefType _ _ (StridedLayout st off) => Some (st, off)
  | _ => None
  end.

(* ================================================================== *)
(** ** Concrete operations used in the examples *)

Definition f16 : MType := FloatType 16.
Definition f32 : MType := FloatType 32.

(** [linalg.generic] computing C(m,n) += A(m,k) * B(k,n), tagged tpp.matmul. *)
Definition gemm (m n k : Z) (eltA eltB eltC : MType) : GenericOp :=
  {| inputs := [Opaque 0 (RankedTensorType [m; k] eltA);
                Opaque 1 (RankedTensorType [k; n] eltB)];
     outputs := [Opaque 2 (RankedTensorType [m; n] eltC)];
     resultTypes := [RankedTensorType [m; n] eltC];
     indexingMaps := ["(i, j, k) -> (i, k)"%string; "(i, j, k) -> (k, j)"%string;
                      "(i, j, k) -> (i, j)"%string];
     iteratorTypes := ["parallel"%string; "parallel"%string; "reduction"%string];
     doc := EmptyString;
     libraryCall := "tpp.matmul" |}.

(** The log of a run, empty when the run does not return. *)
Definition logOf (r : Exec (LogicalResult * list Event)) : list Event :=
  match r with
  | Ok (_, log) => log
  | _ => []
  end.

(** The operations created by a run. *)
Definition createdGenerics (log : list Event) : list GenericOp :=
  flat_map (fun e => match e with CreateGeneric g => [g] | _ => [] end) log.

Definition always (op : GenericOp) : bool := true.

(** The scenario of the spec: C (5, 10), A (5, k), B (k, 10), here k = 3. *)
Definition scenario : GenericOp := gemm 5 10 3 f32 f32 f32.

Definition scenario_log : list Event :=
  Eval vm_compute in logOf (matchAndRewrite always always always scenario []).

(** An already compliant matmul: C (12, 32). *)
Definition compliantGemm : GenericOp := gemm 12 32 3 f32 f32 f32.

(** A matmul whose A and B differ in element type; only its rows are padded. *)
Definition mixedGemm : GenericOp := gemm 5 16 3 f16 f32 f32.

(** A matmul whose trailing extent, 2^24 + 1, no float holds exactly. *)
Definition wideGemm : GenericOp := gemm 6 16777217 3 f32 f32 f32.

(** A matmul whose leading extent is 2^54 + 1. *)
Definition hugeGemm : GenericOp := gemm 18014398509481985 16 3 f32 f32 f32.

(** The per-dimension rule that the code applies between an inferred
    (broadcast) extent [dim1] and a declared result extent [dim2]. *)
Definition compatibleDims (dim1 dim2 : Z) : Prop :=
  dim1 = dim2 \/ dim1 = kDynamic \/ dim2 = kDynamic \/ dim1 = 1.

(** The per-dimension rule in the words of the spec: two dimensions are
    compatible if equal, if either is 1, or if either is dynamic. *)
Definition spec_isCompatible (dim1 dim2 : Z) : bool :=
  (dim1 =? dim2) || (dim1 =? 1) || (dim2 =? 1) || isDynamic dim1 || isDynamic dim2.

Definition tensor3x1 : MType := RankedTensorType [3; 1] f32.
Definition tensor1x4 : MType := RankedTensorType [1; 4] f32.
Definition tensor3x4 : MType := RankedTensorType [3; 4] f32.
Definition tensor3x5 : MType := RankedTensorType [3; 5] f32.
Definition tensor4 : MType := RankedTensorType [4] f32.

(** A memref operand with the given shape and strides, offset 0. *)
Definition strided (shape strides : list Z) : Value :=
  Opaque 0 (MemRefType shape f32 (StridedLayout strides 0)).

(** A memref whose layout yields no strides. *)
Definition unsupported : Value :=
  Opaque 0 (MemRefType [4; 4] f32 (OtherLayout "unsupported")).

(** An operand that is not shaped. *)
Definition scalar : Value := Opaque 0 f32.

(* ================================================================== *)
(** ** What a run of the pattern leaves behind *)

(** What [padSIMDDimension] has done when it returns. *)
Inductive SimdPadded (ops : GemmOperands) (simdDim : Z) (log : list Event)
  : GemmOperands -> list Event -> Prop :=
| simd_kept :
    Z.rem simdDim 16 = 0 -> SimdPadded ops simdDim log ops log
| simd_padded paddedSimd shapeB shapeC c0 b0 eltC eltB :
    Z.rem simdDim 16 <> 0 ->
    paddedSimdOf simdDim = Some paddedSimd ->
    shapeOfType (getType (B ops)) = Some shapeB ->
    shapeOfType (getType (C ops)) = Some shapeC ->
    nth_error shapeC 0 = Some c0 -> nth_error shapeB 0 = Some b0 ->
    elementTypeOf (getType (C ops)) = Some eltC ->
    elementTypeOf (getType (B ops)) = Some eltB ->
    let padZero := ConstantOp eltC (getZeroAttr eltC) in
    let padOne := ConstantOp eltB (getOneAttr eltB) in
    let paddedC := PadHighOp (RankedTensorType [c0; paddedSimd] eltC) (C ops) padZero false in
    let paddedB := PadHighOp (RankedTensorType [b0; paddedSimd] eltB) (B ops) padOne false in
    SimdPadded ops simdDim log
      {| A := A ops; B := paddedB; C := paddedC |}
      (log ++ [Create padZero; Create padOne; Create paddedC; Create paddedB]).

(** What [padParallelDimension] has done when it returns. *)
Inductive ParallelPadded (ops : GemmOperands) (parallelDim : Z) (log : list Event)
  : GemmOperands -> list Event -> Prop :=
| parallel_kept :
    Z.rem parallelDim 6 = 0 -> ParallelPadded ops parallelDim log ops log
| parallel_padded paddedParallel shapeA shapeC c1 a1 eltC eltA eltB :
    Z.rem parallelDim 6 <> 0 ->
    paddedParallelOf parallelDim = Some paddedParallel ->
    shapeOfType (getType (A ops)) = Some shapeA ->
    shapeOfType (getType (C ops)) = Some shapeC ->
    nth_error shapeC 1 = Some c1 -> nth_error shapeA 1 = Some a1 ->
    elementTypeOf (getType (C ops)) = Some eltC ->
    elementTypeOf (getType (A ops)) = Some eltA ->
    elementTypeOf (getType (B ops)) = Some eltB ->
    let padZero := ConstantOp eltC (getZeroAttr eltC) in
    let padOne := ConstantOp eltB (getOneAttr eltB) in
    let paddedC := PadHighOp (RankedTensorType [paddedParallel; c1] eltC) (C ops) padZero false in
    let paddedA := PadHighOp (RankedTensorType [paddedParallel; a1] eltA) (A ops) padOne false in
    ParallelPadded ops parallelDim log
      {| A := paddedA; B := B ops; C := paddedC |}
      (log ++ [Create padZero; Create padOne; Create paddedC; Create paddedA]).

(** The operation that line 180 creates over the operands [ops]. *)
Definition replacementOf (linalgOp : GenericOp) (ops : GemmOperands) : GenericOp :=
  {| inputs := [A ops; B ops];
     outputs := [C ops];
     resultTypes := [getType (C ops)];
     indexingMaps := indexingMaps linalgOp;
     iteratorTypes := iteratorTypes linalgOp;
     doc := EmptyString;
     libraryCall := "tpp.matmul" |}.

(** The slice of lines 190-201: offset 0, stride 1, the extents [shapeC]. *)
Definition extractOf (linalgOp : GenericOp) (ops : GemmOperands) (shapeC : list Z)
  : ExtractSliceOp :=
  {| sliceSource := replacementOf linalgOp ops; sliceResult := 0;
     offsets := repeat 0 (List.length shapeC);
     sizes := shapeC;
     strides := repeat 1 (List.length shapeC) |}.

(** The operands of [linalgOp] are A (m, k), B (k, n) and C (m, n): the
    assertions of lines 163-169 hold. *)
Inductive GemmShapes (linalgOp : GenericOp) (a b c : Value) (m n k : Z) : Prop :=
| gemm_shapes :
    nth_error (getOperands linalgOp) 0 = Some a ->
    nth_error (getOperands linalgOp) 1 = Some b ->
    nth_error (getOperands linalgOp) 2 = Some c ->
    shapeOfType (getType a) = Some [m; k] ->
    shapeOfType (getType b) = Some [k; n] ->
    shapeOfType (getType c) = Some [m; n] ->
    GemmShapes linalgOp a b c m n k.

(** What [padDimensions] has done when it returns success. *)
Inductive Rewritten (linalgOp : GenericOp) (log : list Event) : list Event -> Prop :=
| rewritten a b c m n k ops1 log1 ops2 log2 :
    GemmShapes linalgOp a b c m n k ->
    isCompliant n m = false ->
    SimdPadded {| A := a; B := b; C := c |} n log ops1 log1 ->
    ParallelPadded ops1 m log1 ops2 log2 ->
    Rewritten linalgOp log
      (log2 ++ [CreateGeneric (replacementOf linalgOp ops2);
                InlineRegionBefore linalgOp (replacementOf linalgOp ops2);
                CreateExtractSlice (extractOf linalgOp ops2 [m; n]);
                ReplaceOp linalgOp (extractOf linalgOp ops2 [m; n])]).


(* ================================================================== *)
(** ** Notions used to state further properties *)

(** The events that a log has gained. *)
Definition gained (log log' : list Event) : list Event :=
  skipn (List.length log) log'.

(** The pads among events, in order of creation. *)
Definition createdPads (log : list Event) : list Value :=
  flat_map (fun e => match e with
                     | Create (PadHighOp t s p nf) => [PadHighOp t s p nf]
                     | _ => []
                     end) log.

(** The number of extents of C that the pattern pads. *)
Definition paddedDimensions (m n : Z) : nat :=
  (if Z.rem n 16 =? 0 then 0%nat else 1%nat)
  + (if Z.rem m 6 =? 0 then 0%nat else 1%nat).

(** The stride helper when, as the IR layer's [getStridesAndOffset] does,
    it pushes the strides of the layout onto the vector it is handed and
    does not clear it first. The helper is not under src/. *)
Definition appendStrides (t : MType) (strides : list Z) : option (list Z * Z) :=
  match t with
  | MemRefType _ _ (StridedLayout st off) => Some (strides ++ st, off)
  | _ => None
  end.

(** A matmul with a fourth operand. *)
Definition gemmWithExtra : GenericOp :=
  {| inputs := [Opaque 0 (RankedTensorType [5; 3] f32);
                Opaque 1 (RankedTensorType [3; 10] f32)];
     outputs := [Opaque 2 (RankedTensorType [5; 10] f32);
                 Opaque 3 (RankedTensorType [5; 10] f32)];
     resultTypes := [RankedTensorType [5; 10] f32; RankedTensorType [5; 10] f32];
     indexingMaps := [];
     iteratorTypes := [];
     doc := EmptyString;
     libraryCall := "tpp.matmul" |}.

(** The result of a run of a verifier, without its diagnostics. *)
Definition resultOf (r : Exec Verdict) : Exec LogicalResult :=
  match r with
  | Ok (res, _) => Ok res
  | AssertionFailure msg => AssertionFailure msg
  | UndefinedBehaviour => UndefinedBehaviour
  end.

(** The diagnostics that a run of a verifier has emitted. *)
Definition diagnosticsOf (r : Exec Verdict) : list Diagnostic :=
  match r with
  | Ok (_, diags) => diags
  | _ => []
  end.

(** The operands make the unit-stride loop return success: all of them
    are examined and pass, or those before some operand that is not shaped
    are. *)
Definition passing (getStridesAndOffset : MType -> list Z -> option (list Z * Z))
  (strides : list Z) (operands : list Value) : Prop :=
  (exists strides', examined getStridesAndOffset strides operands = Some strides') \/
  (exists pre operand post strides',
      operands = pre ++ operand :: post /\
      examined getStridesAndOffset strides pre = Some strides' /\
      isShapedType (getType operand) = false).

(** The operand is a memref whose own strides, as [stridesOf] computes
    them from its type, are not empty and end in 1. *)
Definition unitStrided (stridesOf : MType -> option (list Z * Z))
  (operand : Value) : Prop :=
  isMemRefType (getType operand) = true /\
  exists st off, stridesOf (getType operand) = Some (st ++ [1], off).

(** A memref of rank 0: no extent, no stride. *)
Definition rank0 : Value := Opaque 1 (MemRefType [] f32 (StridedLayout [] 0)).

(** A tagged operation whose first operand is a scalar. *)
Definition scalarGemm : GenericOp :=
  {| inputs := [Opaque 0 f32; Opaque 1 (RankedTensorType [3; 10] f32)];
     outputs := [Opaque 2 (RankedTensorType [5; 10] f32)];
     resultTypes := [RankedTensorType [5; 10] f32];
     indexingMaps := [];
     iteratorTypes := [];
     doc := EmptyString;
     libraryCall := "tpp.matmul" |}.

(** A tagged operation with two operands only. *)
Definition twoOperandOp : GenericOp :=
  {| inputs := [Opaque 0 (RankedTensorType [5; 3] f32)];
     outputs := [Opaque 1 (RankedTensorType [5; 10] f32)];
     resultTypes := [RankedTensorType [5; 10] f32];
     indexingMaps := [];
     iteratorTypes := [];
     doc := EmptyString;
     libraryCall := "tpp.matmul" |}.

(** A tagged operation whose A (5, 3) and B (4, 10) disagree on the
    reduction extent. *)
Definition mismatchedGemm : GenericOp :=
  {| inputs := [Opaque 0 (RankedTensorType [5; 3] f32);
                Opaque 1 (RankedTensorType [4; 10] f32)];
     outputs := [Opaque 2 (RankedTensorType [5; 10] f32)];
     resultTypes := [RankedTensorType [5; 10] f32];
     indexingMaps := [];
     iteratorTypes := [];
     doc := EmptyString;
     libraryCall := "tpp.matmul" |}.

(* ================================================================== *)
(** ** Facts about the rounding model *)

Section Rounding.

Lemma rne_of_pos (p a b : Z) : 0 < a -> rne p a b = rne_pos p a b.
Proof. destruct a; try lia; reflexivity. Qed.

Lemma den_pos (x : dyadic) : 0 < den x.
Proof.
  unfold den. destruct (0 <=? expo x) eqn:E; [lia|].
  apply Z.leb_gt in E. apply Z.pow_pos_nonneg; lia.
Qed.

(** An upper bound on the ratio bounds the exponent chosen for it. *)
Lemma ilog2_ratio_lt (a b m : Z) :
  0 < a -> 0 < b -> 0 <= m -> a < b * 2 ^ m -> ilog2_ratio a b < m.
Proof.
  intros Ha Hb Hm Hlt. unfold ilog2_ratio.
  destruct (Z.log2_spec a Ha) as [La Ua].
  destruct (Z.log2_spec b Hb) as [Lb Ub].
  pose proof (Z.log2_nonneg a) as Na. pose proof (Z.log2_nonneg b) as Nb.
  set (la := Z.log2 a) in *. set (lb := Z.log2 b) in *.
  destruct (scaled_le b (la - lb) a) eqn:S.
  - unfold scaled_le in S. destruct (0 <=? la - lb) eqn:D; [|apply Z.leb_gt in D; lia].
    apply Z.leb_le in D. apply Z.leb_le in S.
    destruct (Z.lt_ge_cases (la - lb) m) as [|G]; [assumption|exfalso].
    assert (2 ^ m <= 2 ^ (la - lb)) by (apply Z.pow_le_mono_r; lia).
    nia.
  - destruct (Z.lt_ge_cases (la - lb - 1) m) as [|G]; [assumption|exfalso].
    assert (E : la = (lb + 1) + (la - lb - 1)) by lia.
    assert (2 ^ m <= 2 ^ (la - lb - 1)) by (apply Z.pow_le_mono_r; lia).
    assert (0 < 2 ^ m) by (apply Z.pow_pos_nonneg; lia).
    assert (P : 2 ^ la = 2 ^ (Z.succ lb) * 2 ^ (la - lb - 1)).
    { rewrite <- Z.pow_add_r by lia. f_equal. lia. }
    nia.
Qed.

(** The rounding model and the IEEE-754 operations of the standard library
    pad the probes, and their opposites, to the same extents. *)
Lemma rounding_model_agrees :
  forallb (fun dim => agrees 16 dim && agrees 6 dim) (probes ++ map Z.opp probes)
  = true.
Proof. vm_compute. reflexivity. Qed.

(** A ratio that is an integer below [2^p] is not rounded. *)
Lemma rne_pos_exact (p a b v : Z) :
  0 < p -> 0 < b -> 0 < v -> v < 2 ^ p -> a = v * b ->
  num (rne_pos p a b) = v * den (rne_pos p a b).
Proof.
  intros Hp Hb Hv Hlt ->.
  assert (He : ilog2_ratio (v * b) b < p) by (apply ilog2_ratio_lt; nia).
  unfold rne_pos. set (e := ilog2_ratio (v * b) b) in *.
  destruct (0 <=? e + 1 - p) eqn:S.
  - apply Z.leb_le in S. assert (E : e + 1 - p = 0) by lia. rewrite E.
    rewrite Z.pow_0_r, Z.mul_1_r, Z.div_mul, Z.mod_mul by lia.
    replace (2 * 0 ?= b) with Lt by (symmetry; apply Z.compare_lt_iff; lia).
    unfold num, den; cbn. lia.
  - apply Z.leb_gt in S.
    replace (v * b * 2 ^ (- (e + 1 - p))) with (v * 2 ^ (- (e + 1 - p)) * b) by ring.
    rewrite Z.div_mul, Z.mod_mul by lia.
    replace (2 * 0 ?= b) with Lt by (symmetry; apply Z.compare_lt_iff; lia).
    unfold num, den; cbn [mant expo].
    destruct (0 <=? e + 1 - p) eqn:S'; [apply Z.leb_le in S'; lia|]. reflexivity.
Qed.

(** Rounding a ratio that is small against the precision, and not within
    1/16 above an integer, does not move its ceiling. *)
Lemma rne_pos_ceil (p a b : Z) :
  5 <= p -> 0 < a -> 0 < b -> a < b * 2 ^ (p - 5) ->
  b <= 16 * (a mod b) ->
  ceilZ (rne_pos p a b) = a / b + 1.
Proof.
  intros Hp Ha Hb Hlt Hfrac.
  assert (He : ilog2_ratio a b < p - 5) by (apply ilog2_ratio_lt; lia).
  unfold rne_pos. set (e := ilog2_ratio a b) in *.
  destruct (0 <=? e + 1 - p) eqn:S; [apply Z.leb_le in S; lia|].
  set (s := - (e + 1 - p)). assert (Hs : 5 <= s) by (unfold s; lia).
  assert (P32 : 32 <= 2 ^ s).
  { change 32 with (2 ^ 5). apply Z.pow_le_mono_r; lia. }
  set (k := a / b). set (r0 := a mod b).
  assert (Ea : a = b * k + r0) by (apply Z.div_mod; lia).
  assert (Hr0 : 0 <= r0 < b) by (apply Z.mod_pos_bound; lia).
  fold r0 in Hfrac.
  set (q := a * 2 ^ s / b). set (r := (a * 2 ^ s) mod b).
  assert (Eq : a * 2 ^ s = b * q + r) by (apply Z.div_mod; lia).
  assert (Hr : 0 <= r < b) by (apply Z.mod_pos_bound; lia).
  assert (Bq : k * 2 ^ s + 2 <= q <= (k + 1) * 2 ^ s - 1).
  { split.
    - assert (b * (k * 2 ^ s + 2) < b * (q + 1)) by nia. nia.
    - assert (b * q < b * ((k + 1) * 2 ^ s)) by nia. nia. }
  assert (Bq' : forall q', q <= q' <= q + 1 -> ceilZ (Dy q' (- s)) = k + 1).
  { intros q' Hq'. unfold ceilZ, num, den; cbn [mant expo].
    destruct (0 <=? - s) eqn:S'; [apply Z.leb_le in S'; lia|].
    rewrite Z.opp_involutive.
    assert (D : (- q') / 2 ^ s = - (k + 1)).
    { symmetry. apply Z.div_unique with (r := (k + 1) * 2 ^ s - q'); lia. }
    lia. }
  replace (e + 1 - p) with (- s) by (unfold s; lia).
  destruct (2 * r ?= b); [destruct (Z.even q)| |]; apply Bq'; lia.
Qed.

(** The quantities of [paddedTo] for a dimension that a float holds
    exactly: the result is the least multiple of [k] that is no less. *)
Lemma paddedTo_exact (k : positive) (dim : Z) :
  Zpos k <= 16 -> 0 <= dim < 2 ^ 24 ->
  paddedTo k dim = Some (Zpos k * ((dim + Zpos k - 1) / Zpos k)).
Proof.
  intros Hk Hdim.
  assert (P24 : 2 ^ 24 = 16777216) by reflexivity.
  assert (P48 : 2 ^ 48 = 281474976710656) by reflexivity.
  assert (P53 : 2 ^ 53 = 9007199254740992) by reflexivity.
  assert (P63 : 2 ^ 63 = 9223372036854775808) by reflexivity.
  set (kz := Zpos k) in *. assert (Hk0 : 0 < kz) by (unfold kz; lia).
  destruct (Z.eq_dec dim 0) as [->|Hnz].
  { assert (E : (0 + kz - 1) / kz = 0) by (apply Z.div_small; lia).
    rewrite E. unfold paddedTo, float_of_int64, double_of_float. cbn [rne].
    unfold double_div. cbn [num den mant expo Z.leb Z.compare]. rewrite !Z.mul_0_l.
    cbn [rne]. replace (std_ceil (Dy 0 0)) with (Dy 0 0) by reflexivity.
    unfold double_mul. cbn [num den mant expo Z.leb Z.compare].
    rewrite Z.mul_0_l, Z.mul_0_r. reflexivity. }
  assert (Hd : 0 < dim) by lia.
  unfold paddedTo, float_of_int64, double_of_float, double_lit, double_of_int,
    float_prec, double_prec.
  fold kz. rewrite (rne_of_pos 24 dim 1), (rne_of_pos 53 kz 1) by lia.
  set (x := rne_pos 24 dim 1). set (y := rne_pos 53 kz 1).
  assert (Hx : num x = dim * den x) by (apply rne_pos_exact; lia).
  assert (Hy : num y = kz * den y) by (apply rne_pos_exact; lia).
  pose proof (den_pos x) as Dx. pose proof (den_pos y) as Dy0.
  set (K := (dim + kz - 1) / kz).
  assert (HK : kz * K - kz < dim <= kz * K).
  { unfold K. pose proof (Z.div_mod (dim + kz - 1) kz ltac:(lia)).
    pose proof (Z.mod_pos_bound (dim + kz - 1) kz Hk0). lia. }
  assert (HK1 : 1 <= K) by nia.
  assert (Hc : ceilZ (double_div x y) = K).
  { unfold double_div, double_prec. rewrite Hx, Hy.
    set (M := den x * den y). assert (HM : 0 < M) by (unfold M; nia).
    replace (dim * den x * den y) with (dim * M) by (unfold M; ring).
    replace (den x * (kz * den y)) with (kz * M) by (unfold M; ring).
    rewrite rne_of_pos by nia.
    destruct (Z.eq_dec (dim mod kz) 0) as [Z0|NZ].
    - assert (Ed : dim = kz * K).
      { pose proof (Z.div_mod dim kz ltac:(lia)) as Dm. rewrite Z0 in Dm.
        assert (dim / kz = K) by nia. nia. }
      assert (Hv : num (rne_pos 53 (dim * M) (kz * M))
                   = K * den (rne_pos 53 (dim * M) (kz * M))).
      { apply rne_pos_exact; nia. }
      unfold ceilZ. rewrite Hv.
      replace (- (K * den (rne_pos 53 (dim * M) (kz * M))))
        with ((- K) * den (rne_pos 53 (dim * M) (kz * M))) by ring.
      rewrite Z.div_mul; [lia|]. pose proof (den_pos (rne_pos 53 (dim * M) (kz * M))). lia.
    - pose proof (Z.mod_pos_bound dim kz Hk0) as Bm.
      pose proof (Z.div_mod dim kz ltac:(lia)) as Dm.
      set (q0 := dim / kz) in *. set (r0 := dim mod kz) in *.
      assert (Hq1 : q0 < K) by nia.
      assert (Hq2 : K - 1 < q0 + 1) by nia.
      rewrite rne_pos_ceil.
      + rewrite Z.div_mul_cancel_r by lia. fold q0. lia.
      + lia.
      + nia.
      + nia.
      + change (53 - 5) with 48. nia.
      + rewrite Zmult_mod_distr_r. fold r0. nia. }
  unfold std_ceil. rewrite Hc. unfold double_mul, double_prec.
  replace (num (Dy K 0)) with K by (unfold num; cbn; lia).
  replace (den (Dy K 0)) with 1 by reflexivity.
  rewrite Hy, Z.mul_1_r. rewrite rne_of_pos by nia.
  set (z := rne_pos 53 (kz * den y * K) (den y)).
  assert (Hz : num z = (kz * K) * den z) by (apply rne_pos_exact; nia).
  pose proof (den_pos z) as Dz.
  unfold int64_of_double. rewrite Hz, Z.quot_mul by lia.
  unfold int64_min, int64_max.
  destruct (- 2 ^ 63 <=? kz * K) eqn:E1; [|apply Z.leb_gt in E1; nia].
  destruct (kz * K <=? 2 ^ 63 - 1) eqn:E2; [|apply Z.leb_gt in E2; nia].
  reflexivity.
Qed.

(** The exponent chosen for a ratio is not above its logarithm. *)
Lemma ilog2_ratio_ge (a b : Z) :
  0 < a -> 0 < b ->
  (0 <= ilog2_ratio a b -> b * 2 ^ ilog2_ratio a b <= a) /\
  (ilog2_ratio a b < 0 -> b <= a * 2 ^ (- ilog2_ratio a b)).
Proof.
  intros Ha Hb. unfold ilog2_ratio.
  destruct (Z.log2_spec a Ha) as [La Ua].
  destruct (Z.log2_spec b Hb) as [Lb Ub].
  pose proof (Z.log2_nonneg a) as Na. pose proof (Z.log2_nonneg b) as Nb.
  set (la := Z.log2 a) in *. set (lb := Z.log2 b) in *.
  destruct (scaled_le b (la - lb) a) eqn:S.
  - unfold scaled_le in S. destruct (0 <=? la - lb) eqn:D.
    + apply Z.leb_le in D, S. split; [intros _; exact S|lia].
    + apply Z.leb_gt in D. apply Z.leb_le in S. split; [lia|intros _; exact S].
  - split.
    + intros H.
      assert (P : 2 ^ la = 2 ^ (Z.succ lb) * 2 ^ (la - lb - 1)).
      { rewrite <- Z.pow_add_r by lia. f_equal. lia. }
      assert (0 < 2 ^ (la - lb - 1)) by (apply Z.pow_pos_nonneg; lia).
      nia.
    + intros H.
      assert (P : 2 ^ la * 2 ^ (- (la - lb - 1)) = 2 ^ (Z.succ lb)).
      { rewrite <- Z.pow_add_r by lia. f_equal. lia. }
      assert (0 < 2 ^ (- (la - lb - 1))) by (apply Z.pow_pos_nonneg; lia).
      nia.
Qed.

(** Rounding to two bits or more yields a positive value, at most twice
    the ratio. *)
Lemma rne_pos_bounds (p a b : Z) :
  2 <= p -> 0 < a -> 0 < b ->
  0 < num (rne_pos p a b) /\
  num (rne_pos p a b) * b <= 2 * a * den (rne_pos p a b).
Proof.
  intros Hp Ha Hb.
  destruct (ilog2_ratio_ge a b Ha Hb) as [G1 G2].
  unfold rne_pos. set (e := ilog2_ratio a b) in *.
  assert (P2 : 2 <= 2 ^ (p - 1)).
  { change 2 with (2 ^ 1) at 1. apply Z.pow_le_mono_r; lia. }
  destruct (0 <=? e + 1 - p) eqn:S.
  - apply Z.leb_le in S. set (sh := e + 1 - p) in *.
    assert (Psh : 0 < 2 ^ sh) by (apply Z.pow_pos_nonneg; lia).
    assert (Pe : 2 ^ e = 2 ^ sh * 2 ^ (p - 1)).
    { rewrite <- Z.pow_add_r by lia. f_equal. unfold sh. lia. }
    specialize (G1 ltac:(lia)).
    set (d := b * 2 ^ sh). assert (Hd : 0 < d) by (unfold d; nia).
    set (q := a / d). set (r := a mod d).
    assert (Eq : a = d * q + r) by (apply Z.div_mod; lia).
    assert (Hr : 0 <= r < d) by (apply Z.mod_pos_bound; lia).
    assert (Hq : 2 <= q).
    { assert (d * 2 ^ (p - 1) <= a) by (unfold d; nia).
      assert (d * 2 ^ (p - 1) < d * (q + 1)) by nia. nia. }
    assert (B : forall q', q <= q' <= q + 1 ->
                0 < num (Dy q' sh) /\ num (Dy q' sh) * b <= 2 * a * den (Dy q' sh)).
    { intros q' Hq'. unfold num, den; cbn [mant expo].
      destruct (0 <=? sh) eqn:S'; [|apply Z.leb_gt in S'; lia].
      split; [nia|]. unfold d in *. nia. }
    destruct (2 * r ?= d); [destruct (Z.even q)| |]; apply B; lia.
  - apply Z.leb_gt in S. set (s := - (e + 1 - p)).
    assert (Hs : 0 < s) by (unfold s; lia).
    assert (Ps : 0 < 2 ^ s) by (apply Z.pow_pos_nonneg; lia).
    assert (Hn : b * 2 ^ (p - 1) <= a * 2 ^ s).
    { destruct (Z.lt_ge_cases e 0) as [Neg|Pos].
      - specialize (G2 Neg).
        assert (Es : 2 ^ s = 2 ^ (- e) * 2 ^ (p - 1)).
        { rewrite <- Z.pow_add_r by lia. f_equal. unfold s. lia. }
        nia.
      - specialize (G1 Pos).
        assert (Es : 2 ^ (p - 1) = 2 ^ e * 2 ^ s).
        { rewrite <- Z.pow_add_r by lia. f_equal. unfold s. lia. }
        assert (0 < 2 ^ e) by (apply Z.pow_pos_nonneg; lia).
        nia. }
    set (q := a * 2 ^ s / b). set (r := (a * 2 ^ s) mod b).
    assert (Eq : a * 2 ^ s = b * q + r) by (apply Z.div_mod; lia).
    assert (Hr : 0 <= r < b) by (apply Z.mod_pos_bound; lia).
    assert (Hq : 2 <= q).
    { assert (b * 2 ^ (p - 1) < b * (q + 1)) by nia. nia. }
    assert (B : forall q', q <= q' <= q + 1 ->
                0 < num (Dy q' (- s)) /\
                num (Dy q' (- s)) * b <= 2 * a * den (Dy q' (- s))).
    { intros q' Hq'. unfold num, den; cbn [mant expo].
      destruct (0 <=? - s) eqn:S'; [apply Z.leb_le in S'; lia|].
      rewrite Z.opp_involutive. split; [lia|]. nia. }
    replace (e + 1 - p) with (- s) by (unfold s; lia).
    destruct (2 * r ?= b); [destruct (Z.even q)| |]; apply B; lia.
Qed.

Lemma ceilZ_bounds (x : dyadic) :
  0 < num x -> 1 <= ceilZ x /\ ceilZ x * den x < num x + den x.
Proof.
  intros Hn. pose proof (den_pos x) as Hd. unfold ceilZ.
  pose proof (Z.div_mod (- num x) (den x) ltac:(lia)) as E.
  pose proof (Z.mod_pos_bound (- num x) (den x) Hd) as B.
  split; nia.
Qed.

(** Below 2^50 the padded extent is defined and a multiple of [k], also
    where the float has rounded the extent. *)
Lemma paddedTo_multiple (k : positive) (dim : Z) :
  Zpos k <= 16 -> 0 <= dim < 2 ^ 50 ->
  exists K, paddedTo k dim = Some (Zpos k * K).
Proof.
  intros Hk Hdim.
  assert (P50 : 2 ^ 50 = 1125899906842624) by reflexivity.
  assert (P53 : 2 ^ 53 = 9007199254740992) by reflexivity.
  assert (P63 : 2 ^ 63 = 9223372036854775808) by reflexivity.
  set (kz := Zpos k) in *. assert (Hk0 : 0 < kz) by (unfold kz; lia).
  destruct (Z.eq_dec dim 0) as [->|Hnz].
  { exists 0. unfold paddedTo, float_of_int64, double_of_float. cbn [rne].
    unfold double_div. cbn [num den mant expo Z.leb Z.compare]. rewrite !Z.mul_0_l.
    cbn [rne]. replace (std_ceil (Dy 0 0)) with (Dy 0 0) by reflexivity.
    unfold double_mul. cbn [num den mant expo Z.leb Z.compare].
    rewrite Z.mul_0_l, !Z.mul_0_r. reflexivity. }
  assert (Hd : 0 < dim) by lia.
  unfold paddedTo, float_of_int64, double_of_float, double_lit, double_of_int,
    float_prec, double_prec.
  fold kz. rewrite (rne_of_pos 24 dim 1), (rne_of_pos 53 kz 1) by lia.
  set (x := rne_pos 24 dim 1). set (y := rne_pos 53 kz 1).
  destruct (rne_pos_bounds 24 dim 1 ltac:(lia) Hd ltac:(lia)) as [Xp Xb].
  fold x in Xp, Xb.
  assert (Hy : num y = kz * den y) by (apply rne_pos_exact; lia).
  pose proof (den_pos x) as Dx. pose proof (den_pos y) as Dy0.
  unfold double_div, double_prec. rewrite rne_of_pos by nia.
  set (q := rne_pos 53 (num x * den y) (den x * num y)).
  destruct (rne_pos_bounds 53 (num x * den y) (den x * num y)
              ltac:(lia) ltac:(nia) ltac:(nia)) as [Qp Qb].
  fold q in Qp, Qb.
  destruct (ceilZ_bounds q Qp) as [K1 K2]. pose proof (den_pos q) as Dq.
  set (K := ceilZ q) in *.
  assert (HK : kz * K <= 4 * dim + kz).
  { rewrite Hy in Qb.
    assert (Q1 : num q * kz * den x <= 2 * num x * den q).
    { apply Z.mul_le_mono_pos_r with (p := den y); [assumption|]. nia. }
    assert (Q2 : num q * kz * den x <= 4 * dim * den q * den x) by nia.
    assert (Q3 : num q * kz <= 4 * dim * den q).
    { apply Z.mul_le_mono_pos_r with (p := den x); assumption. }
    assert (Q4 : kz * K * den q <= (4 * dim + kz) * den q) by nia.
    apply Z.mul_le_mono_pos_r with (p := den q); assumption. }
  exists K. unfold std_ceil. fold K. unfold double_mul, double_prec.
  replace (num (Dy K 0)) with K by (unfold num; cbn; lia).
  replace (den (Dy K 0)) with 1 by reflexivity.
  rewrite Hy, Z.mul_1_r. rewrite rne_of_pos by nia.
  set (z := rne_pos 53 (kz * den y * K) (den y)).
  assert (Hz : num z = (kz * K) * den z) by (apply rne_pos_exact; nia).
  pose proof (den_pos z) as Dz.
  unfold int64_of_double. rewrite Hz, Z.quot_mul by lia.
  unfold int64_min, int64_max.
  destruct (- 2 ^ 63 <=? kz * K) eqn:E1; [|apply Z.leb_gt in E1; nia].
  destruct (kz * K <=? 2 ^ 63 - 1) eqn:E2; [|apply Z.leb_gt in E2; nia].
  reflexivity.
Qed.

End Rounding.

(* ================================================================== *)
(** ** Running the rewriter computations *)

Lemma bind_inv {X Y} (m : Rw X) (k : X -> Rw Y) log r :
  bind m k log = Ok r ->
  exists x log1, m log = Ok (x, log1) /\ k x log1 = Ok r.
Proof.
  unfold bind. destruct (m log) as [[x log1]| |]; try discriminate.
  intros H. exists x, log1. split; [reflexivity|exact H].
Qed.

Lemma ret_inv {X} (x y : X) log log1 : ret x log = Ok (y, log1) -> y = x /\ log1 = log.
Proof. unfold ret. intros H. inversion H. split; reflexivity. Qed.

Lemma checked_inv {X} (o : option X) msg log x log1 :
  checked o msg log = Ok (x, log1) -> o = Some x /\ log1 = log.
Proof. unfold checked. destruct o; [|discriminate]. intros H; inversion H. split; reflexivity. Qed.

Lemma defined_inv {X} (o : option X) log x log1 :
  defined o log = Ok (x, log1) -> o = Some x /\ log1 = log.
Proof. unfold defined. destruct o; [|discriminate]. intros H; inversion H. split; reflexivity. Qed.

Lemma assert_inv cond msg log u log1 :
  assert cond msg log = Ok (u, log1) -> cond = true /\ log1 = log.
Proof. unfold assert. destruct cond; [|discriminate]. intros H; inversion H. split; reflexivity. Qed.

Lemma emit_inv e log u log1 : emit e log = Ok (u, log1) -> log1 = log ++ [e].
Proof. unfold emit. intros H; inversion H. reflexivity. Qed.

Lemma createConstant_inv ty attr log v log1 :
  createConstant ty attr log = Ok (v, log1) ->
  v = ConstantOp ty attr /\ log1 = log ++ [Create v].
Proof. unfold createConstant, bind, emit, ret. intros H; inversion H. split; reflexivity. Qed.

Lemma createPadHighOp_inv ty s p nf log v log1 :
  createPadHighOp ty s p nf log = Ok (v, log1) ->
  v = PadHighOp ty s p nf /\ log1 = log ++ [Create v].
Proof. unfold createPadHighOp, bind, emit, ret. intros H; inversion H. split; reflexivity. Qed.

(** Take a successful run apart, one bind at a time. *)
Ltac run_inv :=
  repeat match goal with
  | H : bind _ _ _ = Ok _ |- _ =>
      apply bind_inv in H; destruct H as (? & ? & ? & H)
  | H : ret _ _ = Ok (_, _) |- _ => apply ret_inv in H; destruct H; subst
  | H : getShapeOf _ _ = Ok (_, _) |- _ =>
      unfold getShapeOf in H
  | H : getElementTypeOf _ _ = Ok (_, _) |- _ =>
      unfold getElementTypeOf in H
  | H : at_ _ _ _ = Ok (_, _) |- _ => unfold at_ in H
  | H : checked _ _ _ = Ok (_, _) |- _ => apply checked_inv in H; destruct H; subst
  | H : defined _ _ = Ok (_, _) |- _ => apply defined_inv in H; destruct H; subst
  | H : assert _ _ _ = Ok (_, _) |- _ => apply assert_inv in H; destruct H; subst
  | H : emit _ _ = Ok (_, _) |- _ => apply emit_inv in H; subst
  | H : createConstant _ _ _ = Ok (_, _) |- _ =>
      apply createConstant_inv in H; destruct H; subst
  | H : createPadHighOp _ _ _ _ _ = Ok (_, _) |- _ =>
      apply createPadHighOp_inv in H; destruct H; subst
  end.

Lemma padSIMDDimension_inv ops simdDim log ops' log' :
  padSIMDDimension ops simdDim log = Ok (ops', log') ->
  SimdPadded ops simdDim log ops' log'.
Proof.
  unfold padSIMDDimension. destruct (Z.rem simdDim 16 =? 0) eqn:E.
  - intros H. apply ret_inv in H. destruct H; subst. apply simd_kept. now apply Z.eqb_eq.
  - intros H. run_inv. repeat rewrite <- app_assoc. cbn [app].
    eapply simd_padded; eauto. now apply Z.eqb_neq.
Qed.

Lemma padParallelDimension_inv ops parallelDim log ops' log' :
  padParallelDimension ops parallelDim log = Ok (ops', log') ->
  ParallelPadded ops parallelDim log ops' log'.
Proof.
  unfold padParallelDimension. destruct (Z.rem parallelDim 6 =? 0) eqn:E.
  - intros H. apply ret_inv in H. destruct H; subst. apply parallel_kept. now apply Z.eqb_eq.
  - intros H. run_inv. repeat rewrite <- app_assoc. cbn [app].
    eapply parallel_padded; eauto. now apply Z.eqb_neq.
Qed.

Lemma length_2 (l : list Z) :
  Nat.eqb (List.length l) 2 = true -> exists x y, l = [x; y].
Proof.
  destruct l as [|x [|y [|z l]]]; try discriminate. intros _. now exists x, y.
Qed.

Lemma padDimensions_inv linalgOp log r log' :
  padDimensions linalgOp log = Ok (r, log') ->
  (r = failure /\ log' = log) \/ (r = success /\ Rewritten linalgOp log log').
Proof.
  unfold padDimensions. intros H.
  apply bind_inv in H; destruct H as (a & ? & Ha & H).
  apply bind_inv in H; destruct H as (b & ? & Hb & H).
  apply bind_inv in H; destruct H as (c & ? & Hc & H).
  apply checked_inv in Ha, Hb, Hc. destruct Ha as [Ha ->], Hb as [Hb ->], Hc as [Hc ->].
  match type of H with (if ?g then _ else _) _ = _ => destruct g end.
  { apply ret_inv in H. left. destruct H; split; assumption. }
  apply bind_inv in H; destruct H as (shapeC & ? & HsC & H).
  apply bind_inv in H; destruct H as (shapeB & ? & HsB & H).
  apply bind_inv in H; destruct H as (shapeA & ? & HsA & H).
  unfold getShapeOf in HsC, HsB, HsA.
  apply checked_inv in HsA, HsB, HsC.
  destruct HsA as [HsA ->], HsB as [HsB ->], HsC as [HsC ->].
  apply bind_inv in H; destruct H as (? & ? & H1 & H).
  apply assert_inv in H1; destruct H1 as [H1 ->].
  apply bind_inv in H; destruct H as (? & ? & H2 & H).
  apply assert_inv in H2; destruct H2 as [H2 ->].
  apply bind_inv in H; destruct H as (? & ? & H3 & H).
  apply assert_inv in H3; destruct H3 as [H3 ->].
  apply length_2 in H1, H2, H3.
  destruct H1 as (c0 & c1 & ->), H2 as (b0 & b1 & ->), H3 as (a0 & a1 & ->).
  unfold at_ in H; cbn [nth_error] in H.
  repeat match type of H with
  | bind (checked (Some _) _) _ _ = _ => unfold bind at 1, checked at 1 in H
  end.
  apply bind_inv in H; destruct H as (? & ? & E1 & H).
  apply assert_inv in E1; destruct E1 as [E1 ->]. apply Z.eqb_eq in E1.
  repeat match type of H with
  | bind (checked (Some _) _) _ _ = _ => unfold bind at 1, checked at 1 in H
  end.
  apply bind_inv in H; destruct H as (? & ? & E2 & H).
  apply assert_inv in E2; destruct E2 as [E2 ->]. apply Z.eqb_eq in E2.
  repeat match type of H with
  | bind (checked (Some _) _) _ _ = _ => unfold bind at 1, checked at 1 in H
  end.
  apply bind_inv in H; destruct H as (? & ? & E3 & H).
  apply assert_inv in E3; destruct E3 as [E3 ->]. apply Z.eqb_eq in E3.
  subst.
  destruct (isCompliant b1 a0) eqn:Cmp.
  { apply ret_inv in H. left. destruct H; split; assumption. }
  apply bind_inv in H; destruct H as (ops1 & log1 & S1 & H).
  apply bind_inv in H; destruct H as (ops2 & log2 & S2 & H).
  apply padSIMDDimension_inv in S1. apply padParallelDimension_inv in S2.
  cbn [List.length sliceLoop at_ nth_error] in H.
  unfold bind, checked, emit, ret in H. cbn in H.
  inversion H; subst; clear H.
  repeat rewrite <- app_assoc. cbn [app].
  right. split; [reflexivity|].
  eapply rewritten with (k := b0); eauto. constructor; assumption.
Qed.

Lemma shapeOfType_shaped t s : shapeOfType t = Some s -> isShapedType t = true.
Proof. destruct t; cbn; congruence. Qed.

Lemma shaped_elementType t s :
  shapeOfType t = Some s -> exists elt, elementTypeOf t = Some elt.
Proof. destruct t; cbn; try discriminate; eauto. Qed.

Lemma SimdPadded_elementType ops n log ops1 log1 :
  SimdPadded ops n log ops1 log1 ->
  elementTypeOf (getType (C ops1)) = elementTypeOf (getType (C ops)).
Proof. intros []; cbn; congruence. Qed.

Lemma ParallelPadded_elementType ops n log ops1 log1 :
  ParallelPadded ops n log ops1 log1 ->
  elementTypeOf (getType (C ops1)) = elementTypeOf (getType (C ops)).
Proof. intros []; cbn; congruence. Qed.

(** Every pad that [padSIMDDimension] creates allows folding. *)
Lemma SimdPadded_nofold ops n log ops1 log1 ty s p nf :
  SimdPadded ops n log ops1 log1 ->
  In (Create (PadHighOp ty s p nf)) log1 ->
  In (Create (PadHighOp ty s p nf)) log \/ nf = false.
Proof.
  intros [] Hin; [now left|].
  apply in_app_or in Hin. destruct Hin as [Hin|Hin]; [now left|right].
  cbn in Hin. repeat destruct Hin as [Hin|Hin]; try discriminate; try contradiction;
    inversion Hin; reflexivity.
Qed.

Lemma ParallelPadded_nofold ops n log ops1 log1 ty s p nf :
  ParallelPadded ops n log ops1 log1 ->
  In (Create (PadHighOp ty s p nf)) log1 ->
  In (Create (PadHighOp ty s p nf)) log \/ nf = false.
Proof.
  intros [] Hin; [now left|].
  apply in_app_or in Hin. destruct Hin as [Hin|Hin]; [now left|right].
  cbn in Hin. repeat destruct Hin as [Hin|Hin]; try discriminate; try contradiction;
    inversion Hin; reflexivity.
Qed.

Lemma padDimensions_compliant op a b c m n k log :
  GemmShapes op a b c m n k -> isCompliant n m = true ->
  padDimensions op log = Ok (failure, log).
Proof.
  intros [Ha Hb Hc HA HB HC] Cmp. unfold padDimensions.
  unfold bind at 1. unfold checked at 1. rewrite Ha.
  unfold bind at 1. unfold checked at 1. rewrite Hb.
  unfold bind at 1. unfold checked at 1. rewrite Hc.
  rewrite (shapeOfType_shaped _ _ HA), (shapeOfType_shaped _ _ HB),
    (shapeOfType_shaped _ _ HC). cbn [negb orb].
  unfold getShapeOf, bind, checked, assert, at_, ret. rewrite HA, HB, HC. cbn.
  rewrite !Z.eqb_refl, Cmp. reflexivity.
Qed.

(** X23. On operands that form a GEMM with extents of C below 2^50 and
    not compliant, [padDimensions] returns success: no assertion fails and
    no conversion is undefined. *)
Lemma padDimensions_rewrites op a b c m n k log :
  GemmShapes op a b c m n k ->
  0 <= m < 2 ^ 50 -> 0 <= n < 2 ^ 50 ->
  isCompliant n m = false ->
  exists log', padDimensions op log = Ok (success, log').
Proof.
  intros [Ha Hb Hc HA HB HC] Bm Bn NC.
  destruct (shaped_elementType _ _ HA) as [eltA TA].
  destruct (shaped_elementType _ _ HB) as [eltB TB].
  destruct (shaped_elementType _ _ HC) as [eltC TC].
  unfold padDimensions, padSIMDDimension, padParallelDimension, paddedSimdOf,
    paddedParallelOf, getShapeOf, getElementTypeOf, createConstant,
    createPadHighOp, defined, assert, at_, checked, bind, emit, ret.
  rewrite Ha, Hb, Hc. cbv beta iota zeta.
  rewrite (shapeOfType_shaped _ _ HA), (shapeOfType_shaped _ _ HB),
    (shapeOfType_shaped _ _ HC), HA, HB, HC.
  cbn [negb orb List.length Nat.eqb nth_error]. cbv beta iota zeta.
  rewrite !Z.eqb_refl, NC.
  destruct (paddedTo_multiple 16 n ltac:(lia) Bn) as [Kn ->].
  destruct (paddedTo_multiple 6 m ltac:(lia) Bm) as [Km ->].
  destruct (Z.rem n 16 =? 0); destruct (Z.rem m 6 =? 0);
    repeat (progress
              (cbv beta iota zeta;
               cbn [A B C getType shapeOfType elementTypeOf nth_error List.length sliceLoop];
               unfold at_, checked, bind, ret;
               rewrite ?HA, ?HB, ?HC, ?TA, ?TB, ?TC));
    eexists; reflexivity.
Qed.

Section PatternFacts.

Variables hasTensorSemantics hasStaticShape hasTppMark : GenericOp -> bool.

Local Abbreviation rewriteWith :=
  (matchAndRewrite hasTensorSemantics hasStaticShape hasTppMark).

Lemma matchAndRewrite_inv linalgOp log r log' :
  rewriteWith linalgOp log = Ok (r, log') ->
  (r = failure /\ log' = log) \/ (r = success /\ Rewritten linalgOp log log').
Proof.
  unfold matchAndRewrite.
  destruct (_ || _ || _).
  { intros H. apply ret_inv in H. left. destruct H; split; assumption. }
  destruct (negb _).
  { intros H. apply ret_inv in H. left. destruct H; split; assumption. }
  apply padDimensions_inv.
Qed.

(** C3. Whenever the pattern rewrites an operation, the extraction it
    builds on result 0 of the new matmul has offset 0 and stride 1 in every
    dimension and the extents of the original C as sizes, so that its
    result has exactly the shape of the original C, whatever was padded. *)
Theorem extraction_restores_original_shape linalgOp log log' :
  matchAndRewrite hasTensorSemantics hasStaticShape hasTppMark linalgOp log = Ok (success, log') ->
  exists c shapeC eltC pre g e,
    nth_error (getOperands linalgOp) 2 = Some c /\
    shapeOfType (getType c) = Some shapeC /\
    elementTypeOf (getType c) = Some eltC /\
    log' = pre ++ [CreateGeneric g; InlineRegionBefore linalgOp g;
                   CreateExtractSlice e; ReplaceOp linalgOp e] /\
    sliceSource e = g /\ sliceResult e = 0%nat /\
    offsets e = repeat 0 (List.length shapeC) /\
    strides e = repeat 1 (List.length shapeC) /\
    sizes e = shapeC /\
    extractResultType e = Some (RankedTensorType shapeC eltC).
Proof.
  intros H. apply matchAndRewrite_inv in H.
  destruct H as [[E _]|[_ R]]; [discriminate|].
  destruct R as [a b c m n k ops1 log1 ops2 log2 [Ha Hb Hc HA HB HC] _ S1 S2].
  destruct (shaped_elementType _ _ HC) as [eltC TC].
  exists c, [m; n], eltC, log2, (replacementOf linalgOp ops2),
    (extractOf linalgOp ops2 [m; n]).
  repeat split; try assumption.
  unfold extractResultType. cbn.
  rewrite (ParallelPadded_elementType _ _ _ _ _ S2),
    (SimdPadded_elementType _ _ _ _ _ S1). cbn. rewrite TC. reflexivity.
Qed.

(** C5. When the rank-2 shape of C has a trailing extent divisible by 16
    and a leading extent divisible by 6, the compliance test holds and the
    pattern rewrites nothing: it returns failure (no match) with the
    rewriter untouched, or stops on one of its assertions; on operands that
    form a GEMM it returns failure. *)
Theorem compliant_shape_is_no_match linalgOp c r cd log :
  nth_error (getOperands linalgOp) 2 = Some c ->
  shapeOfType (getType c) = Some [r; cd] ->
  Z.rem cd 16 = 0 -> Z.rem r 6 = 0 ->
  isCompliant cd r = true /\
  (matchAndRewrite hasTensorSemantics hasStaticShape hasTppMark linalgOp log = Ok (failure, log) \/
   exists msg, matchAndRewrite hasTensorSemantics hasStaticShape hasTppMark linalgOp log = AssertionFailure msg) /\
  (forall a b m n k, GemmShapes linalgOp a b c m n k ->
                     matchAndRewrite hasTensorSemantics hasStaticShape hasTppMark linalgOp log = Ok (failure, log)).
Proof.
  intros Hc HC R16 R6.
  assert (Cmp : isCompliant cd r = true).
  { unfold isCompliant. rewrite R16, R6. reflexivity. }
  split; [exact Cmp|]. split.
  - unfold matchAndRewrite.
    destruct (_ || _ || _); [now left|]. destruct (negb _); [now left|].
    destruct (nth_error (getOperands linalgOp) 0) as [a|] eqn:Ha.
    2:{ right. eexists. unfold padDimensions, bind, checked. rewrite Ha. reflexivity. }
    destruct (nth_error (getOperands linalgOp) 1) as [b|] eqn:Hb.
    2:{ right. eexists. unfold padDimensions, bind, checked. rewrite Ha, Hb. reflexivity. }
    unfold padDimensions, getShapeOf, bind, checked, assert, at_, ret.
    rewrite Ha, Hb, Hc. cbv beta iota zeta.
    rewrite (shapeOfType_shaped _ _ HC), HC. cbn [negb orb].
    destruct (isShapedType (getType b)) eqn:SB; [|now left].
    destruct (isShapedType (getType a)) eqn:SA; [|now left].
    cbv beta iota zeta.
    destruct (shapeOfType (getType b)) as [shapeB|]; [|right; eexists; reflexivity].
    destruct (shapeOfType (getType a)) as [shapeA|]; [|right; eexists; reflexivity].
    cbn [List.length Nat.eqb].
    destruct (Nat.eqb (List.length shapeB) 2) eqn:LB; [|right; eexists; reflexivity].
    destruct (Nat.eqb (List.length shapeA) 2) eqn:LA; [|right; eexists; reflexivity].
    apply length_2 in LB, LA. destruct LB as (b0 & b1 & ->), LA as (a0 & a1 & ->).
    unfold checked. cbn.
    destruct (cd =? b1); [|right; eexists; reflexivity].
    destruct (r =? a0); [|right; eexists; reflexivity].
    destruct (a1 =? b0); [|right; eexists; reflexivity].
    rewrite Cmp. now left.
  - intros a b m n k G. unfold matchAndRewrite.
    destruct (_ || _ || _); [reflexivity|]. destruct (negb _); [reflexivity|].
    assert (E : [m; n] = [r; cd]) by (destruct G; congruence).
    inversion E; subst. eapply padDimensions_compliant; eassumption.
Qed.

(** C6, as the code has it. Every pad that the pattern inserts is created
    with the nofold flag false: folding is left allowed. *)
Theorem pads_are_created_foldable linalgOp r log' ty src pad nofold :
  matchAndRewrite hasTensorSemantics hasStaticShape hasTppMark linalgOp [] = Ok (r, log') ->
  In (Create (PadHighOp ty src pad nofold)) log' ->
  nofold = false.
Proof.
  intros H Hin. apply matchAndRewrite_inv in H.
  destruct H as [[_ ->]|[_ R]]; [contradiction|].
  destruct R as [a b c m n k ops1 log1 ops2 log2 _ _ S1 S2].
  apply in_app_or in Hin. destruct Hin as [Hin|Hin].
  2:{ cbn in Hin. repeat destruct Hin as [Hin|Hin]; try discriminate; contradiction. }
  destruct (ParallelPadded_nofold _ _ _ _ _ _ _ _ _ S2 Hin) as [Hin1|]; [|assumption].
  destruct (SimdPadded_nofold _ _ _ _ _ _ _ _ _ S1 Hin1) as [[]|]; assumption.
Qed.

(** An extent below 2^50 is padded to a multiple. *)
Lemma paddedTo_compliant (k : positive) (dim p : Z) :
  Zpos k <= 16 -> 0 <= dim < 2 ^ 50 ->
  paddedTo k dim = Some p -> Z.rem p (Zpos k) = 0.
Proof.
  intros Hk Hd H. destruct (paddedTo_multiple k dim Hk Hd) as [K E].
  assert (E' : p = Zpos k * K) by congruence.
  rewrite E', Z.mul_comm. apply Z.rem_mul. lia.
Qed.

(** X22. When the extents of C are below 2^50, the operation that
    replaces a rewritten one is compliant, and the pattern does not match
    it again, whatever the three eligibility predicates answer. *)
Lemma replacement_is_no_match linalgOp log log' c m n :
  rewriteWith linalgOp log = Ok (success, log') ->
  nth_error (getOperands linalgOp) 2 = Some c ->
  shapeOfType (getType c) = Some [m; n] ->
  0 <= m < 2 ^ 50 -> 0 <= n < 2 ^ 50 ->
  exists g, createdGenerics log' = createdGenerics log ++ [g] /\
            forall log2, rewriteWith g log2 = Ok (failure, log2).
Proof.
  intros H Hc HC Bm Bn. apply matchAndRewrite_inv in H.
  destruct H as [[E _]|[_ R]]; [discriminate|].
  destruct R as [a b c' m' n' k ops1 log1 ops2 log2 [Ha Hb Hc' HA HB HC'] NC S1 S2].
  assert (c' = c) by congruence. subst c'.
  assert (E : [m'; n'] = [m; n]) by congruence. inversion E; subst m' n'. clear E.
  exists (replacementOf linalgOp ops2). split.
  { unfold createdGenerics. rewrite flat_map_app. cbn.
    assert (L1 : flat_map (fun e => match e with CreateGeneric g => [g] | _ => [] end) log1
                 = flat_map (fun e => match e with CreateGeneric g => [g] | _ => [] end) log).
    { destruct S1; [reflexivity|]. rewrite flat_map_app. cbn. apply app_nil_r. }
    assert (L2 : flat_map (fun e => match e with CreateGeneric g => [g] | _ => [] end) log2
                 = flat_map (fun e => match e with CreateGeneric g => [g] | _ => [] end) log1).
    { destruct S2; [reflexivity|]. rewrite flat_map_app. cbn. apply app_nil_r. }
    rewrite L2, L1. reflexivity. }
  intros log3. unfold matchAndRewrite.
  destruct (_ || _ || _); [reflexivity|]. destruct (negb _); [reflexivity|].
  assert (G : exists m' n', GemmShapes (replacementOf linalgOp ops2)
                              (A ops2) (B ops2) (C ops2) m' n' k
                            /\ isCompliant n' m' = true).
  { unfold isCompliant in *.
    destruct S1 as [K1|ps shapeB shapeC c0 b0 eltC eltB NZ1 P1 HB1 HC1 N1 N2 TC1 TB1];
    destruct S2 as [K2|pp shapeA shapeC2 c1 a1 eltC2 eltA eltB2 NZ2 P2 HA2 HC2 M1 M2 TC2 TA2 TB2];
    cbn in *.
    - rewrite K1, K2 in NC. discriminate.
    - assert (shapeA = [m; k]) by congruence. assert (shapeC2 = [m; n]) by congruence.
      subst. cbn in M1, M2.
      assert (c1 = n) by congruence. assert (a1 = k) by congruence. subst.
      exists pp, n. split; [constructor; cbn; auto|].
      rewrite K1, (paddedTo_compliant 6 m pp) by (assumption || lia). reflexivity.
    - assert (shapeB = [k; n]) by congruence. assert (shapeC = [m; n]) by congruence.
      subst. cbn in N1, N2.
      assert (c0 = m) by congruence. assert (b0 = k) by congruence. subst.
      exists m, ps. split; [constructor; cbn; auto|].
      rewrite K2, (paddedTo_compliant 16 n ps) by (assumption || lia). reflexivity.
    - assert (shapeB = [k; n]) by congruence. assert (shapeC = [m; n]) by congruence.
      subst. cbn in N1, N2.
      assert (c0 = m) by congruence. assert (b0 = k) by congruence. subst.
      assert (shapeA = [m; k]) by congruence. assert (shapeC2 = [m; ps]) by congruence.
      subst. cbn in M1, M2.
      assert (c1 = ps) by congruence. assert (a1 = k) by congruence. subst.
      exists pp, ps. split; [constructor; cbn; auto|].
      rewrite (paddedTo_compliant 16 n ps), (paddedTo_compliant 6 m pp)
        by (assumption || lia). reflexivity. }
  destruct G as (m' & n' & G & Cmp). eapply padDimensions_compliant; eassumption.
Qed.

End PatternFacts.

(* ================================================================== *)
(** ** The claims on concrete operations *)

Lemma extraction_restores_original_shape_witness :
  matchAndRewrite always always always scenario [] = Ok (success, scenario_log) /\
  exists c shapeC eltC pre g e,
    nth_error (getOperands scenario) 2 = Some c /\
    shapeOfType (getType c) = Some shapeC /\
    elementTypeOf (getType c) = Some eltC /\
    scenario_log = pre ++ [CreateGeneric g; InlineRegionBefore scenario g;
                           CreateExtractSlice e; ReplaceOp scenario e] /\
    sliceSource e = g /\ sliceResult e = 0%nat /\
    offsets e = repeat 0 (List.length shapeC) /\
    strides e = repeat 1 (List.length shapeC) /\
    sizes e = shapeC /\
    extractResultType e = Some (RankedTensorType shapeC eltC).
Proof.
  split; [vm_compute; reflexivity|].
  apply (extraction_restores_original_shape always always always scenario [] scenario_log).
  vm_compute; reflexivity.
Defined.

Lemma compliant_shape_is_no_match_witness :
  isCompliant 32 12 = true /\
  (matchAndRewrite always always always compliantGemm [] = Ok (failure, []) \/
   exists msg, matchAndRewrite always always always compliantGemm [] = AssertionFailure msg) /\
  (forall a b m n k,
      GemmShapes compliantGemm a b (Opaque 2 (RankedTensorType [12; 32] f32)) m n k ->
      matchAndRewrite always always always compliantGemm [] = Ok (failure, [])).
Proof.
  apply (compliant_shape_is_no_match always always always compliantGemm
           (Opaque 2 (RankedTensorType [12; 32] f32)) 12 32 []);
    reflexivity.
Defined.

Lemma pads_are_created_foldable_witness :
  matchAndRewrite always always always scenario [] = Ok (success, scenario_log) /\
  false = false.
Proof.
  split; [vm_compute; reflexivity|].
  apply (pads_are_created_foldable always always always scenario success scenario_log
           (RankedTensorType [5; 16] f32)
           (Opaque 2 (RankedTensorType [5; 10] f32))
           (ConstantOp f32 (Some (FloatAttr f32 0)))
           false).
  - vm_compute; reflexivity.
  - vm_compute. right. right. left. reflexivity.
Defined.

(** C6, as the claim states it, fails: the pads of the scenario of the spec
    are created with nofold false. *)
Lemma some_pad_does_not_request_nofold :
  ~ (forall linalgOp r log' ty src pad nofold,
        matchAndRewrite always always always linalgOp [] = Ok (r, log') ->
        In (Create (PadHighOp ty src pad nofold)) log' ->
        nofold = true).
Proof.
  intros H.
  assert (E : false = true); [|discriminate E].
  apply (H scenario success scenario_log
           (RankedTensorType [5; 16] f32)
           (Opaque 2 (RankedTensorType [5; 10] f32))
           (ConstantOp f32 (Some (FloatAttr f32 0)))).
  - vm_compute; reflexivity.
  - vm_compute. right. right. left. reflexivity.
Qed.

(** C1 at a matmul with A in f16 and B in f32: the pad of A's leading
    dimension is filled with the constant one of B's element type, f32, and
    not with the one of A's element type, f16. *)
Theorem pad_of_A_is_filled_with_one_of_B_type :
  let a := Opaque 0 (RankedTensorType [5; 3] f16) in
  exists log,
    matchAndRewrite always always always mixedGemm [] = Ok (success, log) /\
    In (Create (PadHighOp (RankedTensorType [6; 3] f16) a
                  (ConstantOp f32 (getOneAttr f32)) false)) log /\
    forall ty pad nofold,
      In (Create (PadHighOp ty a pad nofold)) log ->
      pad = ConstantOp f32 (getOneAttr f32) /\
      pad <> ConstantOp f16 (getOneAttr f16).
Proof.
  intros a. eexists. split; [vm_compute; reflexivity|]. split.
  - cbn. do 3 right. left. reflexivity.
  - intros ty pad nofold Hin. cbn in Hin.
    repeat destruct Hin as [Hin|Hin]; try discriminate; try contradiction;
      inversion Hin; subst; split; [reflexivity|discriminate].
Qed.

(** C2 at the extents 2^24 + 1 and 3 * 2^24 + 1: the float holds neither,
    and the padded extent falls below the extent it pads. The binary32 and
    binary64 operations of the standard library agree. *)
Theorem padded_target_below_extent :
  Z.rem 16777217 16 <> 0 /\
  paddedSimdOf 16777217 = Some 16777216 /\
  sf_paddedTo 16 16777217 = Some 16777216 /\
  ~ 16777217 <= 16777216 /\
  Z.rem 50331649 6 <> 0 /\
  paddedParallelOf 50331649 = Some 50331648 /\
  sf_paddedTo 6 50331649 = Some 50331648 /\
  ~ 50331649 <= 50331648 /\
  exists log,
    matchAndRewrite always always always wideGemm [] = Ok (success, log) /\
    In (Create (PadHighOp (RankedTensorType [6; 16777216] f32)
                  (Opaque 2 (RankedTensorType [6; 16777217] f32))
                  (ConstantOp f32 (getZeroAttr f32)) false)) log.
Proof.
  repeat split; try (vm_compute; congruence); try lia.
  eexists. split; [vm_compute; reflexivity|].
  cbn. do 2 right. left. reflexivity.
Qed.

(** X21. For extents below 2^24 the padded extents are defined and are
    the least multiples of 16 and of 6 that are no less. *)
Lemma padded_targets_in_range (r c : Z) :
  0 <= r < 2 ^ 24 -> 0 <= c < 2 ^ 24 ->
  exists ts tp,
    paddedSimdOf c = Some ts /\ Z.rem ts 16 = 0 /\ ts - 16 < c <= ts /\
    paddedParallelOf r = Some tp /\ Z.rem tp 6 = 0 /\ tp - 6 < r <= tp.
Proof.
  intros Hr Hc. unfold paddedSimdOf, paddedParallelOf.
  rewrite (paddedTo_exact 16 c), (paddedTo_exact 6 r) by (assumption || lia).
  do 2 eexists. split; [reflexivity|].
  pose proof (Z.div_mod (c + 16 - 1) 16 ltac:(lia)).
  pose proof (Z.mod_pos_bound (c + 16 - 1) 16 ltac:(lia)).
  pose proof (Z.div_mod (r + 6 - 1) 6 ltac:(lia)).
  pose proof (Z.mod_pos_bound (r + 6 - 1) 6 ltac:(lia)).
  split; [rewrite Z.mul_comm; apply Z.rem_mul; lia|]. split; [lia|].
  split; [reflexivity|]. split; [rewrite Z.mul_comm; apply Z.rem_mul; lia|]. lia.
Qed.

(** C4 at a matmul with 2^54 + 1 rows: the replacement has 2^54 rows, which
    6 does not divide, and the pattern rewrites the replacement again, into
    an operation of the same shape. *)
Theorem replacement_is_rewritten_again :
  exists log g log2 g2,
    matchAndRewrite always always always hugeGemm [] = Ok (success, log) /\
    createdGenerics log = [g] /\
    map getType (outputs g) = [RankedTensorType [18014398509481984; 16] f32] /\
    paddedParallelOf 18014398509481985 = Some 18014398509481984 /\
    sf_paddedTo 6 18014398509481985 = Some 18014398509481984 /\
    Z.rem 18014398509481984 6 = 4 /\
    matchAndRewrite always always always g log = Ok (success, log2) /\
    createdGenerics log2 = [g; g2] /\
    map getType (outputs g2) = [RankedTensorType [18014398509481984; 16] f32].
Proof.
  do 4 eexists. split; [vm_compute; reflexivity|].
  split; [vm_compute; reflexivity|].
  repeat split; vm_compute; reflexivity.
Qed.

(* ================================================================== *)
(** ** Facts about the broadcast check *)

Lemma broadcastRev_nil_r (r : list Z) : broadcastRev r [] = Some r.
Proof. destruct r; reflexivity. Qed.

Lemma getBroadcastedShape_nil_r (s : list Z) : getBroadcastedShape s [] = Some s.
Proof.
  unfold getBroadcastedShape. cbn [rev]. rewrite broadcastRev_nil_r.
  cbn [option_map]. rewrite rev_involutive. reflexivity.
Qed.

Lemma isCompatible_iff (d1 d2 : Z) : isCompatible d1 d2 = true <-> compatibleDims d1 d2.
Proof.
  unfold isCompatible, compatibleDims, isDynamic.
  rewrite !orb_true_iff, !Z.eqb_eq. tauto.
Qed.

Lemma zipCompatible_iff (inferred existing : list Z) :
  List.length inferred = List.length existing ->
  zipCompatible inferred existing = true <-> Forall2 compatibleDims inferred existing.
Proof.
  revert existing. induction inferred as [|d1 l1 IH]; intros [|d2 l2] L; try discriminate.
  - cbn. split; [constructor|reflexivity].
  - cbn [zipCompatible]. injection L as L. specialize (IH l2 L).
    destruct (isCompatible d1 d2) eqn:E; cbn [negb].
    + rewrite IH. split.
      * intros F. constructor; [now apply isCompatible_iff|exact F].
      * intros F. inversion F; assumption.
    + split; [discriminate|]. intros F. inversion F as [|? ? ? ? R _]; subst.
      apply isCompatible_iff in R. congruence.
Qed.

Lemma isCompatibleInferredReturnShape_iff (inferred existing : list Z) :
  isCompatibleInferredReturnShape inferred existing = true <->
  List.length inferred = List.length existing /\ Forall2 compatibleDims inferred existing.
Proof.
  unfold isCompatibleInferredReturnShape.
  destruct (Nat.eqb (List.length inferred) (List.length existing)) eqn:L; cbn [negb].
  - apply Nat.eqb_eq in L. rewrite (zipCompatible_iff _ _ L). tauto.
  - apply Nat.eqb_neq in L. split; [discriminate|]. tauto.
Qed.

(** C7, as the code has it. With at least one input, the check succeeds
    exactly when the inputs broadcast to a shape that has the rank of, and
    is dimension by dimension compatible with, the trailing dimensions of
    the declared result, where an inferred extent and a result extent are
    compatible when they are equal, when either is dynamic, or when the
    inferred one is 1; a result extent 1 against a larger inferred extent
    is a mismatch. Inputs (3,1) and (1,4) pass with result (3,4) and fail
    with results (3,5), (3,1) and, for its rank, (4). *)
Theorem result_shape_check front rest outputType emitDiagnostic :
  (fst (verifyCompatibleOperandBroadcast (front :: rest) outputType emitDiagnostic)
   = success <->
   exists resultShape,
     broadcastLoop (getShape front) (front :: rest) = Some resultShape /\
     List.length resultShape
     = List.length (take_back (List.length resultShape) (getShape outputType)) /\
     Forall2 compatibleDims resultShape
       (take_back (List.length resultShape) (getShape outputType))) /\
  verifyCompatibleOperandBroadcast [tensor3x1; tensor1x4] tensor3x4 true
  = (success, []) /\
  verifyCompatibleOperandBroadcast [tensor3x1; tensor1x4] tensor3x5 true
  = (failure, [OpError "result type not broadcast compatible with broadcasted operands's shapes"]) /\
  verifyCompatibleOperandBroadcast [tensor3x1; tensor1x4] tensor3x1 true
  = (failure, [OpError "result type not broadcast compatible with broadcasted operands's shapes"]) /\
  verifyCompatibleOperandBroadcast [tensor3x1; tensor1x4] tensor4 true
  = (failure, [OpError "result type not broadcast compatible with broadcasted operands's shapes"]).
Proof.
  split; [|repeat split; reflexivity].
  unfold verifyCompatibleOperandBroadcast. rewrite getBroadcastedShape_nil_r.
  destruct (broadcastLoop (getShape front) (front :: rest)) as [rs|].
  - destruct (isCompatibleInferredReturnShape rs
                (take_back (List.length rs) (getShape outputType))) eqn:E; cbn [negb].
    + apply isCompatibleInferredReturnShape_iff in E. split; [|reflexivity].
      intros _. exists rs. tauto.
    + split.
      * unfold fail_with. destruct emitDiagnostic; discriminate.
      * intros (rs' & Hrs & L & F). injection Hrs as <-.
        assert (T : isCompatibleInferredReturnShape rs
                      (take_back (List.length rs) (getShape outputType)) = true)
          by (apply isCompatibleInferredReturnShape_iff; tauto).
        congruence.
  - split.
    + unfold fail_with. destruct emitDiagnostic; discriminate.
    + intros (rs' & Hrs & _). discriminate.
Qed.

Lemma result_shape_check_witness :
  (fst (verifyCompatibleOperandBroadcast (tensor3x1 :: [tensor1x4]) tensor3x4 false)
   = success <->
   exists resultShape,
     broadcastLoop (getShape tensor3x1) (tensor3x1 :: [tensor1x4]) = Some resultShape /\
     List.length resultShape
     = List.length (take_back (List.length resultShape) (getShape tensor3x4)) /\
     Forall2 compatibleDims resultShape
       (take_back (List.length resultShape) (getShape tensor3x4))) /\
  verifyCompatibleOperandBroadcast [tensor3x1; tensor1x4] tensor3x4 true
  = (success, []) /\
  verifyCompatibleOperandBroadcast [tensor3x1; tensor1x4] tensor3x5 true
  = (failure, [OpError "result type not broadcast compatible with broadcasted operands's shapes"]) /\
  verifyCompatibleOperandBroadcast [tensor3x1; tensor1x4] tensor3x1 true
  = (failure, [OpError "result type not broadcast compatible with broadcasted operands's shapes"]) /\
  verifyCompatibleOperandBroadcast [tensor3x1; tensor1x4] tensor4 true
  = (failure, [OpError "result type not broadcast compatible with broadcasted operands's shapes"]).
Proof.
  exact (result_shape_check tensor3x1 [tensor1x4] tensor3x4 false).
Defined.

(** C7, as the claim states it, fails: with the symmetric rule of the
    spec, a result extent 1 would be accepted against the inferred extent
    4; the code rejects it. *)
Lemma size_one_result_is_rejected :
  ~ (forall front rest outputType emitDiagnostic resultShape,
        broadcastLoop (getShape front) (front :: rest) = Some resultShape ->
        List.length resultShape
        = List.length (take_back (List.length resultShape) (getShape outputType)) ->
        Forall2 (fun d1 d2 => spec_isCompatible d1 d2 = true) resultShape
          (take_back (List.length resultShape) (getShape outputType)) ->
        fst (verifyCompatibleOperandBroadcast (front :: rest) outputType emitDiagnostic)
        = success).
Proof.
  intros H.
  specialize (H tensor3x1 [tensor1x4] tensor3x1 false [3; 4] eq_refl eq_refl).
  assert (E : failure = success); [|discriminate E].
  apply H. repeat constructor.
Qed.

(* ================================================================== *)
(** ** Facts about the unit-stride check *)

Section UnitStrideFacts.

Variable getStridesAndOffset : MType -> list Z -> option (list Z * Z).

Lemma memref_is_shaped (t : MType) : isMemRefType t = true -> isShapedType t = true.
Proof. destruct t; cbn; congruence. Qed.

Lemma rev_head_last (l : list Z) (back : Z) (tl : list Z) (d : Z) :
  rev l = back :: tl -> last l d = back.
Proof.
  intros E. rewrite <- (rev_involutive l), E. cbn [rev]. apply last_last.
Qed.

Lemma last_rev_head (l : list Z) :
  last l 1 <> 1 -> exists back tl, rev l = back :: tl /\ back <> 1.
Proof.
  intros H. destruct (rev l) as [|back tl] eqn:E.
  - rewrite <- (rev_involutive l), E in H. cbn in H. congruence.
  - exists back, tl. split; [reflexivity|].
    rewrite (rev_head_last l back tl 1 E) in H. exact H.
Qed.

(** Operands that the loop examines and passes are skipped. *)
Lemma unitStrideLoop_examined emitDiagnostic pre :
  forall idx strides strides' rest,
    examined getStridesAndOffset strides pre = Some strides' ->
    unitStrideLoop getStridesAndOffset emitDiagnostic idx strides (pre ++ rest)
    = unitStrideLoop getStridesAndOffset emitDiagnostic
        (idx + List.length pre) strides' rest.
Proof.
  induction pre as [|operand pre IH]; intros idx strides strides' rest H.
  - cbn in *. injection H as <-. rewrite Nat.add_0_r. reflexivity.
  - cbn [examined] in H. cbn [app unitStrideLoop List.length].
    destruct (isMemRefType (getType operand)) eqn:M; [|discriminate].
    rewrite (memref_is_shaped _ M). cbn [negb].
    destruct (getStridesAndOffset (getType operand) strides) as [[st off]|]; [|discriminate].
    destruct (rev st) as [|back tl]; [discriminate|].
    destruct (back =? 1); [|discriminate]. cbn [negb].
    rewrite (IH (S idx) st strides' rest H). f_equal. lia.
Qed.

Lemma verify_at emitDiagnostic pre operand post strides :
  examined getStridesAndOffset [] pre = Some strides ->
  verifyUnitStrideInnerLoop getStridesAndOffset
    {| opOperands := pre ++ operand :: post |} emitDiagnostic
  = unitStrideLoop getStridesAndOffset emitDiagnostic (List.length pre) strides
      (operand :: post).
Proof.
  intros H. unfold verifyUnitStrideInnerLoop. cbn [opOperands].
  rewrite (unitStrideLoop_examined _ _ _ _ _ _ H). reflexivity.
Qed.

Lemma memref_failures emitDiagnostic idx strides operand post :
  isMemRefType (getType operand) = true ->
  (getStridesAndOffset (getType operand) strides = None ->
   unitStrideLoop getStridesAndOffset emitDiagnostic idx strides (operand :: post)
   = Ok (fail_with emitDiagnostic (Error "failed to compute strides for operand " idx))) /\
  (forall offset,
      getStridesAndOffset (getType operand) strides = Some ([], offset) ->
      unitStrideLoop getStridesAndOffset emitDiagnostic idx strides (operand :: post)
      = Ok (failure, [])) /\
  (forall strides' offset,
      getStridesAndOffset (getType operand) strides = Some (strides', offset) ->
      last strides' 1 <> 1 ->
      unitStrideLoop getStridesAndOffset emitDiagnostic idx strides (operand :: post)
      = Ok (fail_with emitDiagnostic
              (Error "non-unit stride in the innermost varying dimension for operand " idx))).
Proof.
  intros M. cbn [unitStrideLoop]. rewrite M, (memref_is_shaped _ M). cbn [negb].
  repeat split.
  - intros ->. reflexivity.
  - intros offset ->. reflexivity.
  - intros strides' offset -> L.
    destruct (last_rev_head _ L) as (back & tl & -> & NE).
    apply Z.eqb_neq in NE. rewrite NE. reflexivity.
Qed.

End UnitStrideFacts.

(** At a memref operand that the loop reaches, the check returns failure,
    and does not stop on an assertion, when the strides cannot be computed,
    when the stride vector is empty after the computation, and when its
    last entry is not 1: the three tests of lines 93-114, on the vector as
    the code has it. A memref with strides (4,1) passes; one with strides
    (1,4) and one whose layout yields no strides fail. *)
Theorem unit_stride_failures getStridesAndOffset emitDiagnostic pre operand post strides :
  isMemRefType (getType operand) = true ->
  examined getStridesAndOffset [] pre = Some strides ->
  let op := {| opOperands := pre ++ operand :: post |} in
  (getStridesAndOffset (getType operand) strides = None ->
   exists diags,
     verifyUnitStrideInnerLoop getStridesAndOffset op emitDiagnostic
     = Ok (failure, diags)) /\
  (forall offset,
      getStridesAndOffset (getType operand) strides = Some ([], offset) ->
      exists diags,
        verifyUnitStrideInnerLoop getStridesAndOffset op emitDiagnostic
        = Ok (failure, diags)) /\
  (forall strides' offset,
      getStridesAndOffset (getType operand) strides = Some (strides', offset) ->
      last strides' 1 <> 1 ->
      exists diags,
        verifyUnitStrideInnerLoop getStridesAndOffset op emitDiagnostic
        = Ok (failure, diags)) /\
  verifyUnitStrideInnerLoop stridesOfLayout
    {| opOperands := [strided [4; 4] [4; 1]] |} emitDiagnostic = Ok (success, []) /\
  verifyUnitStrideInnerLoop stridesOfLayout
    {| opOperands := [strided [4; 4] [1; 4]] |} emitDiagnostic
  = Ok (fail_with emitDiagnostic
          (Error "non-unit stride in the innermost varying dimension for operand " 0)) /\
  verifyUnitStrideInnerLoop stridesOfLayout
    {| opOperands := [unsupported] |} emitDiagnostic
  = Ok (fail_with emitDiagnostic (Error "failed to compute strides for operand " 0)).
Proof.
  intros M X op. unfold op.
  rewrite (verify_at getStridesAndOffset emitDiagnostic pre operand post strides X).
  destruct (memref_failures getStridesAndOffset emitDiagnostic (List.length pre)
              strides operand post M) as (F1 & F2 & F3).
  repeat split.
  - intros H. rewrite (F1 H). unfold fail_with. destruct emitDiagnostic; eexists; reflexivity.
  - intros offset H. rewrite (F2 offset H). eexists; reflexivity.
  - intros strides' offset H L. rewrite (F3 strides' offset H L).
    unfold fail_with. destruct emitDiagnostic; eexists; reflexivity.
Qed.

Lemma unit_stride_failures_witness :
  let op := {| opOperands := [strided [4; 4] [4; 1]] ++ strided [4; 4] [1; 4] :: [scalar] |} in
  (stridesOfLayout (getType (strided [4; 4] [1; 4])) [4; 1] = None ->
   exists diags, verifyUnitStrideInnerLoop stridesOfLayout op false = Ok (failure, diags)) /\
  (forall offset,
      stridesOfLayout (getType (strided [4; 4] [1; 4])) [4; 1] = Some ([], offset) ->
      exists diags, verifyUnitStrideInnerLoop stridesOfLayout op false = Ok (failure, diags)) /\
  (forall strides' offset,
      stridesOfLayout (getType (strided [4; 4] [1; 4])) [4; 1] = Some (strides', offset) ->
      last strides' 1 <> 1 ->
      exists diags, verifyUnitStrideInnerLoop stridesOfLayout op false = Ok (failure, diags)) /\
  verifyUnitStrideInnerLoop stridesOfLayout
    {| opOperands := [strided [4; 4] [4; 1]] |} false = Ok (success, []) /\
  verifyUnitStrideInnerLoop stridesOfLayout
    {| opOperands := [strided [4; 4] [1; 4]] |} false
  = Ok (fail_with false
          (Error "non-unit stride in the innermost varying dimension for operand " 0)) /\
  verifyUnitStrideInnerLoop stridesOfLayout
    {| opOperands := [unsupported] |} false
  = Ok (fail_with false (Error "failed to compute strides for operand " 0)).
Proof.
  apply (unit_stride_failures stridesOfLayout false [strided [4; 4] [4; 1]]
           (strided [4; 4] [1; 4]) [scalar] [4; 1]); reflexivity.
Defined.

(** C9. When the loop reaches an operand that is not shaped, the check
    returns success there, with no diagnostic, whatever operands follow. *)
Theorem non_shaped_operand_short_circuits
  getStridesAndOffset emitDiagnostic pre operand post strides :
  isShapedType (getType operand) = false ->
  examined getStridesAndOffset [] pre = Some strides ->
  verifyUnitStrideInnerLoop getStridesAndOffset
    {| opOperands := pre ++ operand :: post |} emitDiagnostic
  = Ok (success, []).
Proof.
  intros S X.
  rewrite (verify_at getStridesAndOffset emitDiagnostic pre operand post strides X).
  cbn [unitStrideLoop]. rewrite S. reflexivity.
Qed.

Lemma non_shaped_operand_short_circuits_witness :
  verifyUnitStrideInnerLoop stridesOfLayout
    {| opOperands := [strided [4; 4] [4; 1]] ++ scalar
                       :: [strided [4; 4] [1; 4]; unsupported] |} true
  = Ok (success, []).
Proof.
  apply (non_shaped_operand_short_circuits stridesOfLayout true
           [strided [4; 4] [4; 1]] scalar [strided [4; 4] [1; 4]; unsupported] [4; 1]);
    reflexivity.
Defined.

(** C10. With diagnostics on, a memref operand that the loop reaches and
    that leaves the stride vector empty makes the check return failure
    with no diagnostic, whereas the two other failures emit exactly one,
    naming the operand. A 0-rank memref alone is such an operand. *)
Theorem empty_strides_fail_silently getStridesAndOffset pre operand post strides :
  isMemRefType (getType operand) = true ->
  examined getStridesAndOffset [] pre = Some strides ->
  let op := {| opOperands := pre ++ operand :: post |} in
  (forall offset,
      getStridesAndOffset (getType operand) strides = Some ([], offset) ->
      verifyUnitStrideInnerLoop getStridesAndOffset op true = Ok (failure, [])) /\
  (getStridesAndOffset (getType operand) strides = None ->
   verifyUnitStrideInnerLoop getStridesAndOffset op true
   = Ok (failure, [Error "failed to compute strides for operand " (List.length pre)])) /\
  (forall strides' offset,
      getStridesAndOffset (getType operand) strides = Some (strides', offset) ->
      last strides' 1 <> 1 ->
      verifyUnitStrideInnerLoop getStridesAndOffset op true
      = Ok (failure,
            [Error "non-unit stride in the innermost varying dimension for operand "
               (List.length pre)])) /\
  verifyUnitStrideInnerLoop stridesOfLayout {| opOperands := [strided [] []] |} true
  = Ok (failure, []).
Proof.
  intros M X op. unfold op.
  rewrite (verify_at getStridesAndOffset true pre operand post strides X).
  destruct (memref_failures getStridesAndOffset true (List.length pre)
              strides operand post M) as (F1 & F2 & F3).
  repeat split.
  - intros offset H. exact (F2 offset H).
  - intros H. exact (F1 H).
  - intros strides' offset H L. exact (F3 strides' offset H L).
Qed.

Lemma empty_strides_fail_silently_witness :
  let op := {| opOperands := [] ++ strided [] [] :: [scalar] |} in
  (forall offset,
      stridesOfLayout (getType (strided [] [])) [] = Some ([], offset) ->
      verifyUnitStrideInnerLoop stridesOfLayout op true = Ok (failure, [])) /\
  (stridesOfLayout (getType (strided [] [])) [] = None ->
   verifyUnitStrideInnerLoop stridesOfLayout op true
   = Ok (failure, [Error "failed to compute strides for operand " 0])) /\
  (forall strides' offset,
      stridesOfLayout (getType (strided [] [])) [] = Some (strides', offset) ->
      last strides' 1 <> 1 ->
      verifyUnitStrideInnerLoop stridesOfLayout op true
      = Ok (failure,
            [Error "non-unit stride in the innermost varying dimension for operand " 0])) /\
  verifyUnitStrideInnerLoop stridesOfLayout {| opOperands := [strided [] []] |} true
  = Ok (failure, []).
Proof.
  apply (empty_strides_fail_silently stridesOfLayout [] (strided [] []) [scalar] []);
    reflexivity.
Defined.

(* ================================================================== *)
(** ** Further properties of the pattern *)

Lemma gained_app (log new : list Event) : gained log (log ++ new) = new.
Proof.
  unfold gained. rewrite skipn_app, skipn_all, Nat.sub_diag. reflexivity.
Qed.

Lemma firstn_app_exact (log new : list Event) :
  firstn (List.length log) (log ++ new) = log.
Proof.
  rewrite firstn_app, Nat.sub_diag, firstn_all. cbn. apply app_nil_r.
Qed.

Lemma shaped_shapeOfType t : isShapedType t = true -> exists s, shapeOfType t = Some s.
Proof. destruct t; cbn; try discriminate; eauto. Qed.

(** What the log has gained over a call of [padSIMDDimension]. *)
Lemma SimdPadded_gained ops n log ops1 log1 :
  SimdPadded ops n log ops1 log1 ->
  exists new, log1 = log ++ new /\
    List.length new = (if Z.rem n 16 =? 0 then 0%nat else 4%nat) /\
    List.length (createdPads new) = (if Z.rem n 16 =? 0 then 0%nat else 2%nat) /\
    createdGenerics new = [].
Proof.
  intros [E|ps shapeB shapeC c0 b0 eltC eltB NZ P HB HC N1 N2 TC TB].
  - exists []. rewrite app_nil_r, E. repeat split; reflexivity.
  - eexists. split; [reflexivity|]. apply Z.eqb_neq in NZ. rewrite NZ.
    repeat split; reflexivity.
Qed.

Lemma ParallelPadded_gained ops m log ops1 log1 :
  ParallelPadded ops m log ops1 log1 ->
  exists new, log1 = log ++ new /\
    List.length new = (if Z.rem m 6 =? 0 then 0%nat else 4%nat) /\
    List.length (createdPads new) = (if Z.rem m 6 =? 0 then 0%nat else 2%nat) /\
    createdGenerics new = [].
Proof.
  intros [E|pp shapeA shapeC c1 a1 eltC eltA eltB NZ P HA HC N1 N2 TC TA TB].
  - exists []. rewrite app_nil_r, E. repeat split; reflexivity.
  - eexists. split; [reflexivity|]. apply Z.eqb_neq in NZ. rewrite NZ.
    repeat split; reflexivity.
Qed.

Section MorePatternFacts.

Variables hasTensorSemantics hasStaticShape hasTppMark : GenericOp -> bool.

Local Abbreviation rewriteWith :=
  (matchAndRewrite hasTensorSemantics hasStaticShape hasTppMark).

(** X1. The pattern rewrites only what is eligible: a success means that
    the operation has tensor semantics, static shapes and the TPP mark,
    that its library call is tpp.matmul, that its first three operands are
    A (m, k), B (k, n), C (m, n), and that C is not compliant. *)
Theorem rewrite_requires_eligibility linalgOp log log' :
  matchAndRewrite hasTensorSemantics hasStaticShape hasTppMark linalgOp log
  = Ok (success, log') ->
  hasTensorSemantics linalgOp = true /\ hasStaticShape linalgOp = true /\
  hasTppMark linalgOp = true /\
  getLibraryCallName linalgOp = "tpp.matmul"%string /\
  exists a b c m n k, GemmShapes linalgOp a b c m n k /\ isCompliant n m = false.
Proof.
  unfold matchAndRewrite.
  destruct (hasTensorSemantics linalgOp), (hasStaticShape linalgOp),
    (hasTppMark linalgOp); cbn [negb orb];
    try (intros H; apply ret_inv in H; destruct H; discriminate).
  destruct (String.eqb (getLibraryCallName linalgOp) "tpp.matmul") eqn:L; cbn [negb];
    [|intros H; apply ret_inv in H; destruct H; discriminate].
  apply String.eqb_eq in L. intros H. apply padDimensions_inv in H.
  destruct H as [[E _]|[_ R]]; [discriminate|].
  destruct R as [a b c m n k ops1 log1 ops2 log2 G NC _ _].
  repeat split; try assumption. exists a, b, c, m, n, k. split; assumption.
Qed.

(** X2. The rewriter's log only grows. A failure leaves it as it was; a
    success adds four events (the new matmul, the move of the region, the
    slice, the replacement) and four more per padded extent of C, two of
    which are pads. *)
Theorem rewriter_log_growth linalgOp log r log' :
  matchAndRewrite hasTensorSemantics hasStaticShape hasTppMark linalgOp log
  = Ok (r, log') ->
  firstn (List.length log) log' = log /\
  (r = failure -> log' = log) /\
  (r = success ->
   exists a b c m n k,
     GemmShapes linalgOp a b c m n k /\
     List.length (gained log log') = (4 + 4 * paddedDimensions m n)%nat /\
     List.length (createdPads (gained log log')) = (2 * paddedDimensions m n)%nat /\
     List.length (createdGenerics (gained log log')) = 1%nat).
Proof.
  intros H. apply matchAndRewrite_inv in H.
  destruct H as [[-> ->]|[-> R]].
  - split; [apply firstn_all|]. split; [reflexivity|discriminate].
  - destruct R as [a b c m n k ops1 log1 ops2 log2 G NC S1 S2].
    destruct (SimdPadded_gained _ _ _ _ _ S1) as (n1 & -> & L1 & P1 & G1).
    destruct (ParallelPadded_gained _ _ _ _ _ S2) as (n2 & -> & L2 & P2 & G2).
    rewrite <- !app_assoc. split; [apply firstn_app_exact|].
    split; [discriminate|]. intros _. exists a, b, c, m, n, k.
    split; [exact G|]. rewrite gained_app. unfold paddedDimensions.
    unfold createdPads, createdGenerics in *.
    rewrite !flat_map_app, !length_app, P1, P2, G1, G2, L1, L2. cbn.
    destruct (Z.rem n 16 =? 0), (Z.rem m 6 =? 0); repeat split; reflexivity.
Qed.

(** X3. The operation that replaces a rewritten one has exactly two inputs
    and one output, however many operands the original has; its result
    type is the type of its output, it keeps the indexing maps and the
    iterator types, has an empty doc and the library call tpp.matmul, and
    receives the region of the original. *)
Theorem replacement_structure linalgOp log log' :
  matchAndRewrite hasTensorSemantics hasStaticShape hasTppMark linalgOp log
  = Ok (success, log') ->
  exists g a' b' c',
    createdGenerics (gained log log') = [g] /\
    inputs g = [a'; b'] /\ outputs g = [c'] /\
    resultTypes g = [getType c'] /\
    indexingMaps g = indexingMaps linalgOp /\
    iteratorTypes g = iteratorTypes linalgOp /\
    doc g = EmptyString /\ libraryCall g = "tpp.matmul"%string /\
    In (InlineRegionBefore linalgOp g) (gained log log').
Proof.
  intros H. apply matchAndRewrite_inv in H.
  destruct H as [[E _]|[_ R]]; [discriminate|].
  destruct R as [a b c m n k ops1 log1 ops2 log2 G NC S1 S2].
  destruct (SimdPadded_gained _ _ _ _ _ S1) as (n1 & -> & L1 & P1 & G1).
  destruct (ParallelPadded_gained _ _ _ _ _ S2) as (n2 & -> & L2 & P2 & G2).
  rewrite <- !app_assoc, gained_app.
  exists (replacementOf linalgOp ops2), (A ops2), (B ops2), (C ops2).
  split.
  { unfold createdGenerics in *. rewrite !flat_map_app, G1, G2. reflexivity. }
  repeat split; try reflexivity.
  apply in_or_app. right. apply in_or_app. right. cbn. auto.
Qed.

(** X4. An operand that is not shaped among the first three makes the
    pattern return failure, with the rewriter untouched: no assertion is
    reached. *)
Theorem non_shaped_operand_is_no_match linalgOp a b c log :
  nth_error (getOperands linalgOp) 0 = Some a ->
  nth_error (getOperands linalgOp) 1 = Some b ->
  nth_error (getOperands linalgOp) 2 = Some c ->
  isShapedType (getType a) && isShapedType (getType b) && isShapedType (getType c)
  = false ->
  matchAndRewrite hasTensorSemantics hasStaticShape hasTppMark linalgOp log
  = Ok (failure, log).
Proof.
  intros Ha Hb Hc NS. unfold matchAndRewrite.
  destruct (_ || _ || _); [reflexivity|]. destruct (negb _); [reflexivity|].
  unfold padDimensions.
  unfold bind at 1. unfold checked at 1. rewrite Ha.
  unfold bind at 1. unfold checked at 1. rewrite Hb.
  unfold bind at 1. unfold checked at 1. rewrite Hc.
  destruct (isShapedType (getType a)), (isShapedType (getType b)),
    (isShapedType (getType c)); try discriminate; reflexivity.
Qed.

(** X5. An eligible operation with fewer than three operands stops the
    pattern on the assertion of [getOperand]. *)
Theorem missing_operand_asserts linalgOp log :
  hasTensorSemantics linalgOp = true -> hasStaticShape linalgOp = true ->
  hasTppMark linalgOp = true ->
  getLibraryCallName linalgOp = "tpp.matmul"%string ->
  (List.length (getOperands linalgOp) < 3)%nat ->
  matchAndRewrite hasTensorSemantics hasStaticShape hasTppMark linalgOp log
  = AssertionFailure "getOperand".
Proof.
  intros T S M L Len. unfold matchAndRewrite. rewrite T, S, M, L. cbn [negb orb String.eqb].
  replace (String.eqb "tpp.matmul" "tpp.matmul") with true by reflexivity. cbn [negb].
  unfold padDimensions, bind, checked.
  destruct (getOperands linalgOp) as [|a [|b [|c l]]]; cbn in *; try reflexivity; lia.
Qed.

(** X6. An eligible operation whose first three operands are shaped but
    are not A (m, k), B (k, n), C (m, n) stops the pattern on one of the
    assertions of lines 163-169, before anything is created. *)
Theorem malformed_gemm_asserts linalgOp a b c log :
  hasTensorSemantics linalgOp = true -> hasStaticShape linalgOp = true ->
  hasTppMark linalgOp = true ->
  getLibraryCallName linalgOp = "tpp.matmul"%string ->
  nth_error (getOperands linalgOp) 0 = Some a ->
  nth_error (getOperands linalgOp) 1 = Some b ->
  nth_error (getOperands linalgOp) 2 = Some c ->
  isShapedType (getType a) = true -> isShapedType (getType b) = true ->
  isShapedType (getType c) = true ->
  (forall m n k, ~ GemmShapes linalgOp a b c m n k) ->
  matchAndRewrite hasTensorSemantics hasStaticShape hasTppMark linalgOp log
  = AssertionFailure "expect 2d gemm" \/
  matchAndRewrite hasTensorSemantics hasStaticShape hasTppMark linalgOp log
  = AssertionFailure "expect equal".
Proof.
  intros T S M L Ha Hb Hc SA SB SC NG. unfold matchAndRewrite.
  rewrite T, S, M, L. cbn [negb orb].
  replace (String.eqb "tpp.matmul" "tpp.matmul") with true by reflexivity. cbn [negb].
  destruct (shaped_shapeOfType _ SA) as [shapeA HA].
  destruct (shaped_shapeOfType _ SB) as [shapeB HB].
  destruct (shaped_shapeOfType _ SC) as [shapeC HC].
  unfold padDimensions, getShapeOf, bind, checked, assert, at_, ret.
  rewrite Ha, Hb, Hc. cbv beta iota zeta.
  rewrite SA, SB, SC, HA, HB, HC. cbn [negb orb]. cbv beta iota zeta.
  destruct (Nat.eqb (List.length shapeC) 2) eqn:LC; [|now left].
  destruct (Nat.eqb (List.length shapeB) 2) eqn:LB; [|now left].
  destruct (Nat.eqb (List.length shapeA) 2) eqn:LA; [|now left].
  apply length_2 in LC, LB, LA.
  destruct LC as (c0 & c1 & ->), LB as (b0 & b1 & ->), LA as (a0 & a1 & ->).
  unfold checked. cbn [nth_error].
  destruct (c1 =? b1) eqn:E1; [|now right].
  destruct (c0 =? a0) eqn:E2; [|now right].
  destruct (a1 =? b0) eqn:E3; [|now right].
  apply Z.eqb_eq in E1, E2, E3. subst. exfalso.
  apply (NG a0 b1 b0). constructor; assumption.
Qed.

End MorePatternFacts.

Lemma pad_kept (k n : Z) :
  0 < k -> 0 <= n -> Z.rem n k = 0 -> k * ((n + (k - 1)) / k) = n.
Proof.
  intros Hk Hn R. rewrite Z.rem_mod_nonneg in R by lia.
  pose proof (Z.div_mod n k ltac:(lia)) as E. rewrite R, Z.add_0_r in E.
  assert (D : (n + (k - 1)) / k = n / k).
  { symmetry. apply Z.div_unique with (r := k - 1); lia. }
  rewrite D. lia.
Qed.

Lemma pad_bounds (k n : Z) :
  0 < k -> k * ((n + (k - 1)) / k) - k < n <= k * ((n + (k - 1)) / k).
Proof.
  intros Hk. pose proof (Z.div_mod (n + (k - 1)) k ltac:(lia)).
  pose proof (Z.mod_pos_bound (n + (k - 1)) k Hk). lia.
Qed.

(** The loop of lines 195-199 after the dimensions [seen]. *)
Lemma sliceLoop_from (rest : list Z) :
  forall (seen offs szs strs : list Z) log,
    sliceLoop (seen ++ rest) (List.length rest) (List.length seen) (offs, szs, strs) log
    = Ok ((offs ++ repeat 0 (List.length rest), szs ++ rest,
           strs ++ repeat 1 (List.length rest)), log).
Proof.
  induction rest as [|d rest IH]; intros seen offs szs strs log.
  - cbn. rewrite !app_nil_r. reflexivity.
  - cbn [List.length sliceLoop]. unfold bind at 1. unfold at_, checked.
    rewrite nth_error_app2, Nat.sub_diag by lia. cbn [nth_error].
    replace (seen ++ d :: rest) with ((seen ++ [d]) ++ rest)
      by (rewrite <- app_assoc; reflexivity).
    replace (S (List.length seen)) with (List.length (seen ++ [d]))
      by (rewrite length_app; cbn; lia).
    rewrite IH. cbn [repeat]. rewrite <- !app_assoc. reflexivity.
Qed.

(** X7. For a shape of any rank, the loop that prepares the slice returns
    without an assertion, with as many offsets 0 and strides 1 as the shape
    has dimensions, and the shape itself as sizes. *)
Theorem sliceLoop_any_rank (shapeC : list Z) (log : list Event) :
  sliceLoop shapeC (List.length shapeC) 0 ([], [], []) log
  = Ok ((repeat 0 (List.length shapeC), shapeC, repeat 1 (List.length shapeC)), log).
Proof. exact (sliceLoop_from shapeC [] [] [] [] log). Qed.

Section ShapeFacts.

Variables hasTensorSemantics hasStaticShape hasTppMark : GenericOp -> bool.

(** X8. When the extents of C are below 2^24, the operation that replaces
    a rewritten matmul over A (m, k), B (k, n), C (m, n) is a matmul over
    A (m', k), B (k, n'), C (m', n'), where m' and n' are the least
    multiples of 6 and of 16 that are no less than m and n; the element
    types are kept, and the slice of extents (m, n) lies inside C. *)
Theorem replacement_operand_shapes linalgOp log log' a b c m n k :
  matchAndRewrite hasTensorSemantics hasStaticShape hasTppMark linalgOp log
  = Ok (success, log') ->
  GemmShapes linalgOp a b c m n k ->
  0 <= m < 2 ^ 24 -> 0 <= n < 2 ^ 24 ->
  exists g a' b' c',
    createdGenerics (gained log log') = [g] /\
    inputs g = [a'; b'] /\ outputs g = [c'] /\
    shapeOfType (getType a') = Some [6 * ((m + 5) / 6); k] /\
    shapeOfType (getType b') = Some [k; 16 * ((n + 15) / 16)] /\
    shapeOfType (getType c') = Some [6 * ((m + 5) / 6); 16 * ((n + 15) / 16)] /\
    elementTypeOf (getType a') = elementTypeOf (getType a) /\
    elementTypeOf (getType b') = elementTypeOf (getType b) /\
    elementTypeOf (getType c') = elementTypeOf (getType c) /\
    m <= 6 * ((m + 5) / 6) < m + 6 /\
    n <= 16 * ((n + 15) / 16) < n + 16.
Proof.
  intros H [Ha Hb Hc HA HB HC] Bm Bn.
  apply matchAndRewrite_inv in H. destruct H as [[E _]|[_ R]]; [discriminate|].
  destruct R as [a' b' c' m' n' k' ops1 log1 ops2 log2 [Ha' Hb' Hc' HA' HB' HC'] NC S1 S2].
  assert (a' = a) by congruence. assert (b' = b) by congruence.
  assert (c' = c) by congruence. subst a' b' c'.
  assert (Em : [m'; k'] = [m; k]) by congruence.
  assert (En : [k'; n'] = [k; n]) by congruence.
  injection Em as -> ->. injection En as ->.
  destruct (SimdPadded_gained _ _ _ _ _ S1) as (n1 & E1 & _ & _ & G1).
  destruct (ParallelPadded_gained _ _ _ _ _ S2) as (n2 & E2 & _ & _ & G2).
  exists (replacementOf linalgOp ops2), (A ops2), (B ops2), (C ops2).
  split.
  { rewrite E2, E1, <- !app_assoc, gained_app. unfold createdGenerics in *.
    rewrite !flat_map_app, G1, G2. reflexivity. }
  split; [reflexivity|]. split; [reflexivity|].
  pose proof (pad_bounds 6 m ltac:(lia)) as Pm.
  pose proof (pad_bounds 16 n ltac:(lia)) as Pn.
  change (6 - 1) with 5 in Pm. change (16 - 1) with 15 in Pn.
  assert (Tm : forall p, paddedParallelOf m = Some p -> p = 6 * ((m + 5) / 6)).
  { unfold paddedParallelOf. rewrite (paddedTo_exact 6 m) by (assumption || lia).
    intros p E. replace (m + 6 - 1) with (m + 5) in E by lia. congruence. }
  assert (Tn : forall p, paddedSimdOf n = Some p -> p = 16 * ((n + 15) / 16)).
  { unfold paddedSimdOf. rewrite (paddedTo_exact 16 n) by (assumption || lia).
    intros p E. replace (n + 16 - 1) with (n + 15) in E by lia. congruence. }
  assert (Km : Z.rem m 6 = 0 -> 6 * ((m + 5) / 6) = m)
    by (intros R; apply (pad_kept 6 m); lia).
  assert (Kn : Z.rem n 16 = 0 -> 16 * ((n + 15) / 16) = n)
    by (intros R; apply (pad_kept 16 n); lia).
  destruct S1 as [K1|ps shapeB shapeC c0 b0 eltC eltB NZ1 P1 HB1 HC1 N1 N2 TC1 TB1];
    destruct S2 as [K2|pp shapeA shapeC2 c1 a1 eltC2 eltA eltB2 NZ2 P2 HA2 HC2 M1 M2 TC2 TA2 TB2];
    repeat match goal with x := _ |- _ => subst x end;
    cbn [A B C getType shapeOfType elementTypeOf] in *.
  - rewrite (Km K2), (Kn K1), HA, HB, HC. repeat split; (reflexivity || lia).
  - assert (shapeA = [m; k]) by congruence. assert (shapeC2 = [m; n]) by congruence.
    subst. cbn in M1, M2.
    assert (c1 = n) by congruence. assert (a1 = k) by congruence. subst.
    rewrite (Tm pp P2), (Kn K1), HB. repeat split; (reflexivity || congruence || lia).
  - assert (shapeB = [k; n]) by congruence. assert (shapeC = [m; n]) by congruence.
    subst. cbn in N1, N2.
    assert (c0 = m) by congruence. assert (b0 = k) by congruence. subst.
    rewrite (Tn ps P1), (Km K2), HA. repeat split; (reflexivity || congruence || lia).
  - assert (shapeB = [k; n]) by congruence. assert (shapeC = [m; n]) by congruence.
    subst. cbn in N1, N2.
    assert (c0 = m) by congruence. assert (b0 = k) by congruence. subst.
    assert (shapeA = [m; k]) by congruence. assert (shapeC2 = [m; ps]) by congruence.
    subst. cbn in M1, M2.
    assert (c1 = ps) by congruence. assert (a1 = k) by congruence. subst.
    rewrite (Tm pp P2), (Tn ps P1). repeat split; (reflexivity || congruence || lia).
Qed.

(** X9. When both extents of C need padding, four pads are created, in
    this order: C on its trailing extent, B on its trailing extent, the
    padded C on its leading extent, A on its leading extent. C is thus
    padded in two steps, and it is the twice padded C that the new matmul
    writes. *)
Theorem pads_in_order linalgOp log log' a b c m n k :
  matchAndRewrite hasTensorSemantics hasStaticShape hasTppMark linalgOp log
  = Ok (success, log') ->
  GemmShapes linalgOp a b c m n k ->
  Z.rem n 16 <> 0 -> Z.rem m 6 <> 0 ->
  exists g n' m' eltA eltB eltC,
    paddedSimdOf n = Some n' /\ paddedParallelOf m = Some m' /\
    elementTypeOf (getType a) = Some eltA /\
    elementTypeOf (getType b) = Some eltB /\
    elementTypeOf (getType c) = Some eltC /\
    let zero := ConstantOp eltC (getZeroAttr eltC) in
    let one := ConstantOp eltB (getOneAttr eltB) in
    let c1 := PadHighOp (RankedTensorType [m; n'] eltC) c zero false in
    let b1 := PadHighOp (RankedTensorType [k; n'] eltB) b one false in
    let c2 := PadHighOp (RankedTensorType [m'; n'] eltC) c1 zero false in
    let a1 := PadHighOp (RankedTensorType [m'; k] eltA) a one false in
    createdPads (gained log log') = [c1; b1; c2; a1] /\
    createdGenerics (gained log log') = [g] /\
    inputs g = [a1; b1] /\ outputs g = [c2].
Proof.
  intros H [Ha Hb Hc HA HB HC] NZn NZm.
  apply matchAndRewrite_inv in H. destruct H as [[E _]|[_ R]]; [discriminate|].
  destruct R as [a' b' c' m' n' k' ops1 log1 ops2 log2 [Ha' Hb' Hc' HA' HB' HC'] NC S1 S2].
  assert (a' = a) by congruence. assert (b' = b) by congruence.
  assert (c' = c) by congruence. subst a' b' c'.
  assert (Em : [m'; k'] = [m; k]) by congruence.
  assert (En : [k'; n'] = [k; n]) by congruence.
  injection Em as -> ->. injection En as ->.
  destruct S1 as [K1|ps shapeB shapeC c0 b0 eltC eltB NZ1 P1 HB1 HC1 N1 N2 TC1 TB1];
    [contradiction|].
  destruct S2 as [K2|pp shapeA shapeC2 c1 a1 eltC2 eltA eltB2 NZ2 P2 HA2 HC2 M1 M2 TC2 TA2 TB2];
    [contradiction|].
  repeat match goal with x := _ |- _ => subst x end.
  cbn [A B C getType shapeOfType elementTypeOf] in *.
  assert (shapeB = [k; n]) by congruence. assert (shapeC = [m; n]) by congruence.
  subst. cbn in N1, N2.
  assert (c0 = m) by congruence. assert (b0 = k) by congruence. subst.
  assert (shapeA = [m; k]) by congruence. assert (shapeC2 = [m; ps]) by congruence.
  subst. cbn in M1, M2.
  assert (c1 = ps) by congruence. assert (a1 = k) by congruence. subst.
  assert (eltC2 = eltC) by congruence. assert (eltB2 = eltB) by congruence. subst.
  exists (replacementOf linalgOp
            {| A := PadHighOp (RankedTensorType [pp; k] eltA) a
                      (ConstantOp eltB (getOneAttr eltB)) false;
               B := PadHighOp (RankedTensorType [k; ps] eltB) b
                      (ConstantOp eltB (getOneAttr eltB)) false;
               C := PadHighOp (RankedTensorType [pp; ps] eltC)
                      (PadHighOp (RankedTensorType [m; ps] eltC) c
                         (ConstantOp eltC (getZeroAttr eltC)) false)
                      (ConstantOp eltC (getZeroAttr eltC)) false |}),
    ps, pp, eltA, eltB, eltC.
  repeat split; try assumption;
    rewrite <- !app_assoc, gained_app; reflexivity.
Qed.

(** X24. The pads of a rewrite are exactly these, in this order, each with
    its fill: when the trailing extent is padded, C with the zero of C's
    element type and then B with the one of B's element type; when the
    leading extent is padded, C (as the first step left it) with the zero
    of C's element type and then A with the one of B's element type. No
    other pad is created. *)
Theorem fills_by_role linalgOp log log' a b c m n k eltA eltB eltC :
  matchAndRewrite hasTensorSemantics hasStaticShape hasTppMark linalgOp log
  = Ok (success, log') ->
  GemmShapes linalgOp a b c m n k ->
  elementTypeOf (getType a) = Some eltA ->
  elementTypeOf (getType b) = Some eltB ->
  elementTypeOf (getType c) = Some eltC ->
  let zero := ConstantOp eltC (getZeroAttr eltC) in
  let one := ConstantOp eltB (getOneAttr eltB) in
  exists n' m',
    (Z.rem n 16 <> 0 -> paddedSimdOf n = Some n') /\
    (Z.rem n 16 = 0 -> n' = n) /\
    (Z.rem m 6 <> 0 -> paddedParallelOf m = Some m') /\
    let c1 := if Z.rem n 16 =? 0 then c
              else PadHighOp (RankedTensorType [m; n'] eltC) c zero false in
    createdPads (gained log log')
    = (if Z.rem n 16 =? 0 then []
       else [c1; PadHighOp (RankedTensorType [k; n'] eltB) b one false])
      ++ (if Z.rem m 6 =? 0 then []
          else [PadHighOp (RankedTensorType [m'; n'] eltC) c1 zero false;
                PadHighOp (RankedTensorType [m'; k] eltA) a one false]).
Proof.
  intros H [Ha Hb Hc HA HB HC] TA TB TC zero one.
  apply matchAndRewrite_inv in H. destruct H as [[E _]|[_ R]]; [discriminate|].
  destruct R as [a' b' c' m' n' k' ops1 log1 ops2 log2 [Ha' Hb' Hc' HA' HB' HC'] NC S1 S2].
  assert (a' = a) by congruence. assert (b' = b) by congruence.
  assert (c' = c) by congruence. subst a' b' c'.
  assert (Em : [m'; k'] = [m; k]) by congruence.
  assert (En : [k'; n'] = [k; n]) by congruence.
  injection Em as -> ->. injection En as ->.
  destruct S1 as [K1|ps shapeB shapeC c0 b0 eltC1 eltB1 NZ1 P1 HB1 HC1 N1 N2 TC1 TB1];
    destruct S2 as [K2|pp shapeA shapeC2 c1 a1 eltC2 eltA2 eltB2 NZ2 P2 HA2 HC2 M1 M2 TC2 TA2 TB2];
    repeat match goal with x := _ |- _ => subst x end;
    cbn [A B C getType shapeOfType elementTypeOf] in *.
  - exists n, m. rewrite K1, K2. cbn [Z.eqb].
    rewrite <- ?app_assoc, gained_app. repeat split; try reflexivity; congruence.
  - assert (shapeA = [m; k]) by congruence. assert (shapeC2 = [m; n]) by congruence.
    subst. cbn in M1, M2.
    assert (c1 = n) by congruence. assert (a1 = k) by congruence. subst.
    assert (eltC2 = eltC) by congruence. assert (eltA2 = eltA) by congruence.
    assert (eltB2 = eltB) by congruence. subst.
    exists n, pp. rewrite K1. apply Z.eqb_neq in NZ2 as NZ2b. rewrite NZ2b. cbn [Z.eqb].
    rewrite <- ?app_assoc, gained_app. repeat split; try reflexivity; congruence.
  - assert (shapeB = [k; n]) by congruence. assert (shapeC = [m; n]) by congruence.
    subst. cbn in N1, N2.
    assert (c0 = m) by congruence. assert (b0 = k) by congruence. subst.
    assert (eltC1 = eltC) by congruence. assert (eltB1 = eltB) by congruence. subst.
    exists ps, m. rewrite K2. apply Z.eqb_neq in NZ1 as NZ1b. rewrite NZ1b. cbn [Z.eqb].
    rewrite <- ?app_assoc, gained_app. repeat split; try reflexivity; congruence.
  - assert (shapeB = [k; n]) by congruence. assert (shapeC = [m; n]) by congruence.
    subst. cbn in N1, N2.
    assert (c0 = m) by congruence. assert (b0 = k) by congruence. subst.
    assert (shapeA = [m; k]) by congruence. assert (shapeC2 = [m; ps]) by congruence.
    subst. cbn in M1, M2.
    assert (c1 = ps) by congruence. assert (a1 = k) by congruence. subst.
    assert (eltC1 = eltC) by congruence. assert (eltB1 = eltB) by congruence.
    assert (eltC2 = eltC) by congruence. assert (eltA2 = eltA) by congruence.
    assert (eltB2 = eltB) by congruence. subst.
    exists ps, pp. apply Z.eqb_neq in NZ1 as NZ1b. apply Z.eqb_neq in NZ2 as NZ2b.
    rewrite NZ1b, NZ2b.
    rewrite <- ?app_assoc, gained_app. repeat split; try reflexivity; congruence.
Qed.

End ShapeFacts.

(* ================================================================== *)
(** ** Further properties of the broadcast check *)

Lemma take_back_all (l : list Z) : take_back (List.length l) l = l.
Proof. unfold take_back. rewrite Nat.sub_diag. reflexivity. Qed.

Lemma take_back_0 (l : list Z) : take_back 0 l = [].
Proof. unfold take_back. rewrite Nat.sub_0_r. apply skipn_all. Qed.

Lemma take_back_app (n : nat) (lead l : list Z) :
  (n <= List.length l)%nat -> take_back n (lead ++ l) = take_back n l.
Proof.
  intros H. unfold take_back. rewrite length_app, skipn_app.
  rewrite skipn_all2 by lia. cbn [app]. f_equal. lia.
Qed.

Lemma isCompatible_refl (d : Z) : isCompatible d d = true.
Proof. unfold isCompatible. rewrite Z.eqb_refl. reflexivity. Qed.

Lemma zipCompatible_refl (s : list Z) : zipCompatible s s = true.
Proof.
  induction s as [|d s IH]; [reflexivity|].
  cbn. rewrite isCompatible_refl. exact IH.
Qed.

Lemma isCompatibleInferredReturnShape_refl (s : list Z) :
  isCompatibleInferredReturnShape s s = true.
Proof.
  unfold isCompatibleInferredReturnShape. rewrite Nat.eqb_refl. apply zipCompatible_refl.
Qed.

(** X11. The comparison of an inferred shape with a declared one accepts
    a shape against itself, an inferred shape of ones against any declared
    shape of that rank, and any inferred shape against a declared shape
    that is all dynamic; it rejects shapes whose ranks differ by one. *)
Theorem inferred_return_shape_rules (s : list Z) (d : Z) :
  isCompatibleInferredReturnShape s s = true /\
  isCompatibleInferredReturnShape (repeat 1 (List.length s)) s = true /\
  isCompatibleInferredReturnShape s (repeat kDynamic (List.length s)) = true /\
  isCompatibleInferredReturnShape s (d :: s) = false /\
  isCompatibleInferredReturnShape (d :: s) s = false.
Proof.
  split; [apply isCompatibleInferredReturnShape_refl|].
  unfold isCompatibleInferredReturnShape.
  rewrite !repeat_length, Nat.eqb_refl. cbn [negb List.length].
  repeat split.
  - induction s as [|x s IH]; [reflexivity|]. cbn [List.length repeat zipCompatible].
    unfold isCompatible at 1. rewrite (Z.eqb_refl 1), !orb_true_r. exact IH.
  - induction s as [|x s IH]; [reflexivity|]. cbn [List.length repeat zipCompatible].
    unfold isCompatible at 1. unfold isDynamic at 2.
    rewrite (Z.eqb_refl kDynamic), orb_true_r. exact IH.
  - destruct (Nat.eqb (List.length s) (S (List.length s))) eqn:E; [|reflexivity].
    apply Nat.eqb_eq in E. lia.
  - destruct (Nat.eqb (S (List.length s)) (List.length s)) eqn:E; [|reflexivity].
    apply Nat.eqb_eq in E. lia.
Qed.

(** X12. The two forms of the broadcast check agree: with and without
    diagnostics the result is the same; the silent form emits nothing, and
    the other form emits exactly one diagnostic when it fails and none
    when it succeeds. *)
Theorem broadcast_check_forms_agree (inputTypes : list MType) (outputType : MType) :
  fst (verifyCompatibleOperandBroadcast inputTypes outputType true)
  = fst (verifyCompatibleOperandBroadcast inputTypes outputType false) /\
  snd (verifyCompatibleOperandBroadcast inputTypes outputType false) = [] /\
  List.length (snd (verifyCompatibleOperandBroadcast inputTypes outputType true))
  = match fst (verifyCompatibleOperandBroadcast inputTypes outputType true) with
    | success => 0%nat
    | failure => 1%nat
    end.
Proof.
  unfold verifyCompatibleOperandBroadcast.
  destruct inputTypes as [|front rest]; [repeat split; reflexivity|].
  destruct (broadcastLoop _ (front :: rest)) as [rs|]; [|repeat split; reflexivity].
  destruct (negb _); repeat split; reflexivity.
Qed.

Lemma broadcastLoop_unshaped (inputTypes : list MType) :
  forallb (fun t => negb (isShapedType t)) inputTypes = true ->
  broadcastLoop [] inputTypes = Some [].
Proof.
  induction inputTypes as [|t l IH]; [reflexivity|].
  cbn [forallb]. intros H. apply andb_true_iff in H. destruct H as [Ht Hl].
  cbn [broadcastLoop].
  assert (E : getShape t = []) by (destruct t; cbn in *; congruence).
  rewrite E. cbn. exact (IH Hl).
Qed.

(** X13. When no input is shaped (in particular when there is no input),
    the broadcast check succeeds, without a diagnostic, whatever the type
    of the result. *)
Theorem unshaped_inputs_pass inputTypes outputType emitDiagnostic :
  forallb (fun t => negb (isShapedType t)) inputTypes = true ->
  verifyCompatibleOperandBroadcast inputTypes outputType emitDiagnostic
  = (success, []).
Proof.
  intros H. unfold verifyCompatibleOperandBroadcast.
  destruct inputTypes as [|front rest]; [reflexivity|].
  rewrite getBroadcastedShape_nil_r.
  assert (E : getShape front = []).
  { cbn in H. apply andb_true_iff in H. destruct H as [H _].
    destruct front; cbn in *; congruence. }
  rewrite E, (broadcastLoop_unshaped _ H). cbn [List.length].
  rewrite take_back_0. reflexivity.
Qed.

Lemma broadcastDim_same (d : Z) : broadcastDim d d = Some d.
Proof.
  unfold broadcastDim, isDynamic. rewrite orb_diag.
  destruct (d =? kDynamic) eqn:E.
  - apply Z.eqb_eq in E. subst d. reflexivity.
  - rewrite Z.eqb_refl. reflexivity.
Qed.

Lemma broadcastRev_same (r : list Z) : broadcastRev r r = Some r.
Proof.
  induction r as [|d r IH]; [reflexivity|].
  cbn. rewrite broadcastDim_same, IH. reflexivity.
Qed.

Lemma getBroadcastedShape_same (s : list Z) : getBroadcastedShape s s = Some s.
Proof.
  unfold getBroadcastedShape. rewrite broadcastRev_same. cbn.
  rewrite rev_involutive. reflexivity.
Qed.

Lemma broadcastLoop_same (s : list Z) (inputTypes : list MType) :
  Forall (fun t => getShape t = s) inputTypes ->
  broadcastLoop s inputTypes = Some s.
Proof.
  induction 1 as [|t l Ht _ IH]; [reflexivity|].
  cbn [broadcastLoop]. rewrite Ht, getBroadcastedShape_same. exact IH.
Qed.

(** X14. Operands that all have the shape of the result pass the broadcast
    check, whatever the extents, dynamic ones included. *)
Theorem equal_shapes_pass inputTypes outputType emitDiagnostic :
  Forall (fun t => getShape t = getShape outputType) inputTypes ->
  verifyCompatibleOperandBroadcast inputTypes outputType emitDiagnostic
  = (success, []).
Proof.
  intros H. unfold verifyCompatibleOperandBroadcast.
  destruct inputTypes as [|front rest]; [reflexivity|].
  rewrite getBroadcastedShape_nil_r.
  assert (E : getShape front = getShape outputType) by (inversion H; assumption).
  rewrite E, (broadcastLoop_same _ _ H), take_back_all,
    isCompatibleInferredReturnShape_refl. reflexivity.
Qed.

(** X15. Only the trailing dimensions of the result are compared: leading
    dimensions put in front of a result shape that is at least as long as
    the broadcast of the inputs do not change the outcome. *)
Theorem leading_result_dimensions_ignored inputTypes lead shape elt emitDiagnostic :
  (forall front rest resultShape,
      inputTypes = front :: rest ->
      broadcastLoop (getShape front) inputTypes = Some resultShape ->
      (List.length resultShape <= List.length shape)%nat) ->
  verifyCompatibleOperandBroadcast inputTypes
    (RankedTensorType (lead ++ shape) elt) emitDiagnostic
  = verifyCompatibleOperandBroadcast inputTypes
      (RankedTensorType shape elt) emitDiagnostic.
Proof.
  intros H. unfold verifyCompatibleOperandBroadcast.
  destruct inputTypes as [|front rest]; [reflexivity|].
  rewrite getBroadcastedShape_nil_r.
  destruct (broadcastLoop (getShape front) (front :: rest)) as [rs|] eqn:E;
    [|reflexivity].
  cbn [getShape shapeOfType].
  rewrite take_back_app by (eapply H; [reflexivity|exact E]). reflexivity.
Qed.

(** X16. [verifyBroadcastableShape] takes the last operand as the result
    and all the others as inputs; an operation with no operand stops it on
    an index assertion. *)
Theorem broadcastable_shape_splits_operands (ins : list Value) (out : Value)
  (emitDiagnostic : bool) :
  verifyBroadcastableShape {| opOperands := ins ++ [out] |} emitDiagnostic
  = Ok (verifyCompatibleOperandBroadcast (map getType ins) (getType out)
          emitDiagnostic) /\
  verifyBroadcastableShape {| opOperands := [] |} emitDiagnostic
  = AssertionFailure "Invalid index!" /\
  checkBroadcastableShape {| opOperands := [out] |} = Ok (success, []).
Proof.
  split; [|split; reflexivity].
  unfold verifyBroadcastableShape, getOperandTypes. cbn [opOperands].
  rewrite map_app, rev_app_distr. cbn [map rev app].
  rewrite length_app. cbn [List.length].
  replace (List.length (map getType ins) + 1 - 1)%nat
    with (List.length (map getType ins)) by lia.
  rewrite firstn_app, Nat.sub_diag, firstn_all. cbn. rewrite app_nil_r. reflexivity.
Qed.

(* ================================================================== *)
(** ** Further properties of the unit-stride check *)

Section MoreUnitStrideFacts.

Variable getStridesAndOffset : MType -> list Z -> option (list Z * Z).

Lemma unitStrideLoop_forms emitDiagnostic operands :
  forall idx strides,
    resultOf (unitStrideLoop getStridesAndOffset emitDiagnostic idx strides operands)
    = resultOf (unitStrideLoop getStridesAndOffset false idx strides operands) /\
    diagnosticsOf (unitStrideLoop getStridesAndOffset false idx strides operands) = [] /\
    (List.length
       (diagnosticsOf
          (unitStrideLoop getStridesAndOffset emitDiagnostic idx strides operands))
     <= 1)%nat.
Proof.
  induction operands as [|operand rest IH]; intros idx strides.
  - cbn. repeat split; lia.
  - cbn [unitStrideLoop].
    destruct (negb (isShapedType (getType operand))); [cbn; repeat split; lia|].
    destruct (negb (isMemRefType (getType operand))); [cbn; repeat split; lia|].
    destruct (getStridesAndOffset (getType operand) strides) as [[st off]|].
    2:{ destruct emitDiagnostic; cbn; repeat split; lia. }
    destruct (rev st) as [|back tl]; [cbn; repeat split; lia|].
    destruct (negb (back =? 1)); [destruct emitDiagnostic; cbn; repeat split; lia|].
    apply IH.
Qed.

Lemma examined_cons strides operand rest :
  examined getStridesAndOffset strides (operand :: rest)
  = match examined getStridesAndOffset strides [operand] with
    | Some strides' => examined getStridesAndOffset strides' rest
    | None => None
    end.
Proof.
  cbn [examined]. destruct (isMemRefType (getType operand)); [|reflexivity].
  destruct (getStridesAndOffset (getType operand) strides) as [[st off]|]; [|reflexivity].
  destruct (rev st) as [|back tl]; [reflexivity|].
  destruct (back =? 1); reflexivity.
Qed.

Lemma examined_shaped strides operand rest strides' :
  examined getStridesAndOffset strides (operand :: rest) = Some strides' ->
  isShapedType (getType operand) = true.
Proof.
  cbn [examined]. destruct (isMemRefType (getType operand)) eqn:M; [|discriminate].
  intros _. apply memref_is_shaped. exact M.
Qed.

Lemma passing_step strides operand rest strides' :
  examined getStridesAndOffset strides [operand] = Some strides' ->
  passing getStridesAndOffset strides (operand :: rest)
  <-> passing getStridesAndOffset strides' rest.
Proof.
  intros E. unfold passing. rewrite (examined_cons strides operand rest), E. split.
  - intros [H|(pre & v & post & s' & Eq & X & NS)]; [left; exact H|right].
    destruct pre as [|p pre].
    + cbn in Eq. injection Eq as <- _.
      rewrite (examined_shaped _ _ _ _ E) in NS. discriminate.
    + cbn in Eq. injection Eq as <- ->.
      rewrite examined_cons, E in X. exists pre, v, post, s'. auto.
  - intros [H|(pre & v & post & s' & Eq & X & NS)]; [left; exact H|right].
    exists (operand :: pre), v, post, s'. subst rest. split; [reflexivity|].
    split; [|exact NS]. rewrite examined_cons, E. exact X.
Qed.

Lemma not_passing strides operand rest :
  isShapedType (getType operand) = true ->
  examined getStridesAndOffset strides [operand] = None ->
  ~ passing getStridesAndOffset strides (operand :: rest).
Proof.
  intros Sh E [[s' H]|(pre & v & post & s' & Eq & X & NS)].
  - rewrite examined_cons, E in H. discriminate.
  - destruct pre as [|p pre].
    + cbn in Eq. injection Eq as <- _. congruence.
    + cbn in Eq. injection Eq as <- ->. rewrite examined_cons, E in X. discriminate.
Qed.

Lemma unitStrideLoop_success emitDiagnostic operands :
  forall idx strides,
    resultOf (unitStrideLoop getStridesAndOffset emitDiagnostic idx strides operands)
    = Ok success <-> passing getStridesAndOffset strides operands.
Proof.
  induction operands as [|operand rest IH]; intros idx strides.
  - cbn. split; [intros _; left; eexists; reflexivity|reflexivity].
  - cbn [unitStrideLoop].
    destruct (isShapedType (getType operand)) eqn:Sh; cbn [negb].
    2:{ cbn. split; [intros _|reflexivity]. right.
        exists [], operand, rest, strides. repeat split. exact Sh. }
    destruct (isMemRefType (getType operand)) eqn:M; cbn [negb].
    2:{ cbn. split; [discriminate|]. intros P. exfalso.
        apply (not_passing strides operand rest Sh); [|exact P].
        cbn. rewrite M. reflexivity. }
    destruct (getStridesAndOffset (getType operand) strides) as [[st off]|] eqn:G.
    2:{ split; [destruct emitDiagnostic; discriminate|]. intros P. exfalso.
        apply (not_passing strides operand rest Sh); [|exact P].
        cbn. rewrite M, G. reflexivity. }
    destruct (rev st) as [|back tl] eqn:R.
    { cbn. split; [discriminate|]. intros P. exfalso.
      apply (not_passing strides operand rest Sh); [|exact P].
      cbn. rewrite M, G, R. reflexivity. }
    destruct (back =? 1) eqn:B; cbn [negb].
    2:{ split; [destruct emitDiagnostic; discriminate|]. intros P. exfalso.
        apply (not_passing strides operand rest Sh); [|exact P].
        cbn. rewrite M, G, R, B. reflexivity. }
    rewrite IH. symmetry. apply passing_step.
    cbn. rewrite M, G, R, B. reflexivity.
Qed.

End MoreUnitStrideFacts.

(** X17. The two forms of the unit-stride check agree: with and without
    diagnostics the run ends the same way (the same result, or the same
    assertion); the silent form emits nothing and the other form at most
    one diagnostic. *)
Theorem unit_stride_forms_agree getStridesAndOffset (op : Operation) :
  resultOf (verifyUnitStrideInnerLoop getStridesAndOffset op true)
  = resultOf (checkUnitStrideInnerLoop getStridesAndOffset op) /\
  diagnosticsOf (checkUnitStrideInnerLoop getStridesAndOffset op) = [] /\
  (List.length (diagnosticsOf (verifyUnitStrideInnerLoop getStridesAndOffset op true))
   <= 1)%nat.
Proof.
  unfold checkUnitStrideInnerLoop, verifyUnitStrideInnerLoop.
  apply unitStrideLoop_forms.
Qed.

(** With a helper whose answer depends on the type only, the operands
    that the loop examines and passes are the memrefs whose own strides
    end in 1. *)
Lemma examined_own_strides getStridesAndOffset stridesOf :
  (forall t strides, getStridesAndOffset t strides = stridesOf t) ->
  forall operands strides,
    (exists strides', examined getStridesAndOffset strides operands = Some strides')
    <-> Forall (unitStrided stridesOf) operands.
Proof.
  intros Own. induction operands as [|operand rest IH]; intros strides.
  - cbn. split; [constructor|eauto].
  - cbn [examined]. rewrite Own. split.
    + intros [s' H].
      destruct (isMemRefType (getType operand)) eqn:M; [|discriminate].
      destruct (stridesOf (getType operand)) as [[st off]|] eqn:G; [|discriminate].
      destruct (rev st) as [|back tl] eqn:R; [discriminate|].
      destruct (back =? 1) eqn:B; [|discriminate]. apply Z.eqb_eq in B. subst back.
      constructor.
      * split; [exact M|]. exists (rev tl), off.
        rewrite G, <- (rev_involutive st), R. reflexivity.
      * apply (IH st). eauto.
    + intros F. inversion F as [|? ? [M (st & off & G)] F']; subst.
      rewrite M, G, rev_app_distr. cbn [rev app Z.eqb Pos.eqb].
      apply IH. exact F'.
Qed.

(** X18. With a stride helper whose answer depends on the memref type
    only (it overwrites the vector it is handed), the unit-stride check
    succeeds exactly when every operand is a memref whose own strides are
    computed, not empty and end in 1, or when this holds of all the
    operands in front of some operand that is not shaped. *)
Theorem unit_stride_success_iff getStridesAndOffset stridesOf (op : Operation)
  (emitDiagnostic : bool) :
  (forall t strides, getStridesAndOffset t strides = stridesOf t) ->
  resultOf (verifyUnitStrideInnerLoop getStridesAndOffset op emitDiagnostic)
  = Ok success <->
  Forall (unitStrided stridesOf) (opOperands op) \/
  exists pre operand post,
    opOperands op = pre ++ operand :: post /\
    Forall (unitStrided stridesOf) pre /\
    isShapedType (getType operand) = false.
Proof.
  intros Own. unfold verifyUnitStrideInnerLoop.
  rewrite unitStrideLoop_success. unfold passing.
  rewrite (examined_own_strides _ _ Own). split.
  - intros [F|(pre & v & post & s' & E & X & NS)]; [left; exact F|right].
    exists pre, v, post. repeat split; try assumption.
    apply (examined_own_strides _ _ Own pre []). eauto.
  - intros [F|(pre & v & post & E & F & NS)]; [left; exact F|right].
    apply (examined_own_strides _ _ Own pre []) in F. destruct F as [s' X].
    exists pre, v, post, s'. auto.
Qed.

(** X19. A shaped operand that is not a memref (a ranked tensor, a vector)
    stops the check on the assertion of [cast<MemRefType>] when the loop
    reaches it. *)
Theorem non_memref_shaped_operand_asserts
  getStridesAndOffset emitDiagnostic pre operand post strides :
  isShapedType (getType operand) = true ->
  isMemRefType (getType operand) = false ->
  examined getStridesAndOffset [] pre = Some strides ->
  verifyUnitStrideInnerLoop getStridesAndOffset
    {| opOperands := pre ++ operand :: post |} emitDiagnostic
  = AssertionFailure "cast<MemRefType>".
Proof.
  intros S M X.
  rewrite (verify_at getStridesAndOffset emitDiagnostic pre operand post strides X).
  cbn [unitStrideLoop]. rewrite S, M. reflexivity.
Qed.

(** X20. The stride vector is declared before the loop and is handed to
    the helper as the previous operand left it. With a helper that appends
    to it, a memref without strides (rank 0) is accepted after a memref
    whose strides end in 1, although it is rejected as the first operand;
    with a helper that overwrites the vector it is rejected in both
    places. *)
Theorem stride_vector_is_shared shape elt st off elt0 off0 emitDiagnostic :
  let v := Opaque 0 (MemRefType shape elt (StridedLayout (st ++ [1]) off)) in
  let z := Opaque 1 (MemRefType [] elt0 (StridedLayout [] off0)) in
  verifyUnitStrideInnerLoop appendStrides {| opOperands := [v; z] |} emitDiagnostic
  = Ok (success, []) /\
  verifyUnitStrideInnerLoop appendStrides {| opOperands := [z] |} emitDiagnostic
  = Ok (failure, []) /\
  verifyUnitStrideInnerLoop stridesOfLayout {| opOperands := [v; z] |} emitDiagnostic
  = Ok (failure, []) /\
  verifyUnitStrideInnerLoop stridesOfLayout {| opOperands := [z] |} emitDiagnostic
  = Ok (failure, []).
Proof.
  intros v z. unfold verifyUnitStrideInnerLoop. cbn [opOperands].
  cbn [unitStrideLoop v z getType isShapedType isMemRefType negb appendStrides
         stridesOfLayout app].
  rewrite app_nil_r, rev_app_distr. cbn [rev app Z.eqb Pos.eqb negb].
  repeat split; reflexivity.
Qed.

(* ================================================================== *)
(** ** The further properties on concrete operations *)

Lemma rewrite_requires_eligibility_witness :
  always scenario = true /\ always scenario = true /\ always scenario = true /\
  getLibraryCallName scenario = "tpp.matmul"%string /\
  exists a b c m n k, GemmShapes scenario a b c m n k /\ isCompliant n m = false.
Proof.
  apply (rewrite_requires_eligibility always always always scenario [] scenario_log).
  vm_compute; reflexivity.
Defined.

Lemma rewriter_log_growth_witness :
  firstn (List.length (@nil Event)) scenario_log = [] /\
  (success = failure -> scenario_log = []) /\
  (success = success ->
   exists a b c m n k,
     GemmShapes scenario a b c m n k /\
     List.length (gained [] scenario_log) = (4 + 4 * paddedDimensions m n)%nat /\
     List.length (createdPads (gained [] scenario_log)) = (2 * paddedDimensions m n)%nat /\
     List.length (createdGenerics (gained [] scenario_log)) = 1%nat).
Proof.
  apply (rewriter_log_growth always always always scenario [] success scenario_log).
  vm_compute; reflexivity.
Defined.

Lemma replacement_structure_witness :
  List.length (getOperands gemmWithExtra) = 4%nat /\
  exists g a' b' c',
    createdGenerics
      (gained [] (logOf (matchAndRewrite always always always gemmWithExtra [])))
    = [g] /\
    inputs g = [a'; b'] /\ outputs g = [c'] /\
    resultTypes g = [getType c'] /\
    indexingMaps g = indexingMaps gemmWithExtra /\
    iteratorTypes g = iteratorTypes gemmWithExtra /\
    doc g = EmptyString /\ libraryCall g = "tpp.matmul"%string /\
    In (InlineRegionBefore gemmWithExtra g)
      (gained [] (logOf (matchAndRewrite always always always gemmWithExtra []))).
Proof.
  split; [reflexivity|].
  apply (replacement_structure always always always gemmWithExtra []).
  vm_compute; reflexivity.
Defined.

Lemma non_shaped_operand_is_no_match_witness :
  matchAndRewrite always always always scalarGemm [] = Ok (failure, []).
Proof.
  apply (non_shaped_operand_is_no_match always always always scalarGemm
           (Opaque 0 f32) (Opaque 1 (RankedTensorType [3; 10] f32))
           (Opaque 2 (RankedTensorType [5; 10] f32)) []); reflexivity.
Defined.

Lemma missing_operand_asserts_witness :
  matchAndRewrite always always always twoOperandOp [] = AssertionFailure "getOperand".
Proof.
  apply (missing_operand_asserts always always always twoOperandOp []);
    try reflexivity.
  vm_compute. lia.
Defined.

Lemma malformed_gemm_asserts_witness :
  matchAndRewrite always always always mismatchedGemm []
  = AssertionFailure "expect 2d gemm" \/
  matchAndRewrite always always always mismatchedGemm []
  = AssertionFailure "expect equal".
Proof.
  apply (malformed_gemm_asserts always always always mismatchedGemm
           (Opaque 0 (RankedTensorType [5; 3] f32))
           (Opaque 1 (RankedTensorType [4; 10] f32))
           (Opaque 2 (RankedTensorType [5; 10] f32)) []); try reflexivity.
  intros m n k [_ _ _ HA HB _]. cbn in HA, HB. congruence.
Defined.

Lemma replacement_operand_shapes_witness :
  exists g a' b' c',
    createdGenerics (gained [] scenario_log) = [g] /\
    inputs g = [a'; b'] /\ outputs g = [c'] /\
    shapeOfType (getType a') = Some [6 * ((5 + 5) / 6); 3] /\
    shapeOfType (getType b') = Some [3; 16 * ((10 + 15) / 16)] /\
    shapeOfType (getType c') = Some [6 * ((5 + 5) / 6); 16 * ((10 + 15) / 16)] /\
    elementTypeOf (getType a')
    = elementTypeOf (getType (Opaque 0 (RankedTensorType [5; 3] f32))) /\
    elementTypeOf (getType b')
    = elementTypeOf (getType (Opaque 1 (RankedTensorType [3; 10] f32))) /\
    elementTypeOf (getType c')
    = elementTypeOf (getType (Opaque 2 (RankedTensorType [5; 10] f32))) /\
    5 <= 6 * ((5 + 5) / 6) < 5 + 6 /\
    10 <= 16 * ((10 + 15) / 16) < 10 + 16.
Proof.
  apply (replacement_operand_shapes always always always scenario [] scenario_log
           (Opaque 0 (RankedTensorType [5; 3] f32))
           (Opaque 1 (RankedTensorType [3; 10] f32))
           (Opaque 2 (RankedTensorType [5; 10] f32)) 5 10 3).
  - vm_compute; reflexivity.
  - constructor; reflexivity.
  - vm_compute. split; [discriminate|reflexivity].
  - vm_compute. split; [discriminate|reflexivity].
Defined.

Lemma pads_in_order_witness :
  exists g n' m' eltA eltB eltC,
    paddedSimdOf 10 = Some n' /\ paddedParallelOf 5 = Some m' /\
    elementTypeOf (getType (Opaque 0 (RankedTensorType [5; 3] f32))) = Some eltA /\
    elementTypeOf (getType (Opaque 1 (RankedTensorType [3; 10] f32))) = Some eltB /\
    elementTypeOf (getType (Opaque 2 (RankedTensorType [5; 10] f32))) = Some eltC /\
    let zero := ConstantOp eltC (getZeroAttr eltC) in
    let one := ConstantOp eltB (getOneAttr eltB) in
    let c1 := PadHighOp (RankedTensorType [5; n'] eltC)
                (Opaque 2 (RankedTensorType [5; 10] f32)) zero false in
    let b1 := PadHighOp (RankedTensorType [3; n'] eltB)
                (Opaque 1 (RankedTensorType [3; 10] f32)) one false in
    let c2 := PadHighOp (RankedTensorType [m'; n'] eltC) c1 zero false in
    let a1 := PadHighOp (RankedTensorType [m'; 3] eltA)
                (Opaque 0 (RankedTensorType [5; 3] f32)) one false in
    createdPads (gained [] scenario_log) = [c1; b1; c2; a1] /\
    createdGenerics (gained [] scenario_log) = [g] /\
    inputs g = [a1; b1] /\ outputs g = [c2].
Proof.
  apply (pads_in_order always always always scenario [] scenario_log
           (Opaque 0 (RankedTensorType [5; 3] f32))
           (Opaque 1 (RankedTensorType [3; 10] f32))
           (Opaque 2 (RankedTensorType [5; 10] f32)) 5 10 3).
  - vm_compute; reflexivity.
  - constructor; reflexivity.
  - vm_compute. discriminate.
  - vm_compute. discriminate.
Defined.

Lemma unshaped_inputs_pass_witness :
  verifyCompatibleOperandBroadcast [f32; IndexType] tensor3x4 true = (success, []).
Proof.
  apply (unshaped_inputs_pass [f32; IndexType] tensor3x4 true). reflexivity.
Defined.

Lemma equal_shapes_pass_witness :
  verifyCompatibleOperandBroadcast
    [RankedTensorType [3; kDynamic] f32; RankedTensorType [3; kDynamic] f16]
    (RankedTensorType [3; kDynamic] f32) true
  = (success, []).
Proof.
  apply (equal_shapes_pass
           [RankedTensorType [3; kDynamic] f32; RankedTensorType [3; kDynamic] f16]
           (RankedTensorType [3; kDynamic] f32) true).
  repeat constructor.
Defined.

Lemma leading_result_dimensions_ignored_witness :
  verifyCompatibleOperandBroadcast [tensor3x1; tensor1x4]
    (RankedTensorType ([7; 2] ++ [3; 4]) f32) true
  = verifyCompatibleOperandBroadcast [tensor3x1; tensor1x4]
      (RankedTensorType [3; 4] f32) true.
Proof.
  apply (leading_result_dimensions_ignored [tensor3x1; tensor1x4] [7; 2] [3; 4] f32 true).
  intros front rest resultShape E H. injection E as <- <-.
  vm_compute in H. injection H as <-. cbn. lia.
Defined.

Lemma unit_stride_success_iff_witness :
  resultOf (verifyUnitStrideInnerLoop stridesOfLayout
              {| opOperands := [strided [4; 4] [4; 1]; rank0] |} true)
  = Ok success <->
  Forall (unitStrided (fun t => stridesOfLayout t []))
    (opOperands {| opOperands := [strided [4; 4] [4; 1]; rank0] |}) \/
  exists pre operand post,
    opOperands {| opOperands := [strided [4; 4] [4; 1]; rank0] |}
    = pre ++ operand :: post /\
    Forall (unitStrided (fun t => stridesOfLayout t [])) pre /\
    isShapedType (getType operand) = false.
Proof.
  apply (unit_stride_success_iff stridesOfLayout (fun t => stridesOfLayout t [])
           {| opOperands := [strided [4; 4] [4; 1]; rank0] |} true).
  intros t strides. destruct t; reflexivity.
Defined.

Lemma non_memref_shaped_operand_asserts_witness :
  verifyUnitStrideInnerLoop stridesOfLayout
    {| opOperands := [strided [4; 4] [4; 1]] ++ Opaque 1 tensor3x4 :: [scalar] |} true
  = AssertionFailure "cast<MemRefType>".
Proof.
  apply (non_memref_shaped_operand_asserts stridesOfLayout true
           [strided [4; 4] [4; 1]] (Opaque 1 tensor3x4) [scalar] [4; 1]);
    reflexivity.
Defined.

Lemma padded_targets_in_range_witness :
  exists ts tp,
    paddedSimdOf 10 = Some ts /\ Z.rem ts 16 = 0 /\ ts - 16 < 10 <= ts /\
    paddedParallelOf 5 = Some tp /\ Z.rem tp 6 = 0 /\ tp - 6 < 5 <= tp.
Proof.
  apply (padded_targets_in_range 5 10); vm_compute; split; (discriminate || reflexivity).
Defined.

Lemma replacement_is_no_match_witness :
  exists g, createdGenerics scenario_log = createdGenerics [] ++ [g] /\
            forall log2, matchAndRewrite always always always g log2 = Ok (failure, log2).
Proof.
  apply (replacement_is_no_match always always always scenario [] scenario_log
           (Opaque 2 (RankedTensorType [5; 10] f32)) 5 10);
    try (vm_compute; reflexivity);
    vm_compute; split; (discriminate || reflexivity).
Defined.

Lemma padDimensions_rewrites_witness :
  exists log', padDimensions scenario [] = Ok (success, log').
Proof.
  apply (padDimensions_rewrites scenario
           (Opaque 0 (RankedTensorType [5; 3] f32))
           (Opaque 1 (RankedTensorType [3; 10] f32))
           (Opaque 2 (RankedTensorType [5; 10] f32)) 5 10 3 []).
  - constructor; reflexivity.
  - vm_compute. split; [discriminate|reflexivity].
  - vm_compute. split; [discriminate|reflexivity].
  - reflexivity.
Defined.


Lemma fills_by_role_witness :
  let a := Opaque 0 (RankedTensorType [5; 3] f16) in
  let b := Opaque 1 (RankedTensorType [3; 16] f32) in
  let c := Opaque 2 (RankedTensorType [5; 16] f32) in
  let zero := ConstantOp f32 (getZeroAttr f32) in
  let one := ConstantOp f32 (getOneAttr f32) in
  exists n' m',
    (Z.rem 16 16 <> 0 -> paddedSimdOf 16 = Some n') /\
    (Z.rem 16 16 = 0 -> n' = 16) /\
    (Z.rem 5 6 <> 0 -> paddedParallelOf 5 = Some m') /\
    let c1 := if Z.rem 16 16 =? 0 then c
              else PadHighOp (RankedTensorType [5; n'] f32) c zero false in
    createdPads
      (gained [] (logOf (matchAndRewrite always always always mixedGemm [])))
    = (if Z.rem 16 16 =? 0 then []
       else [c1; PadHighOp (RankedTensorType [3; n'] f32) b one false])
      ++ (if Z.rem 5 6 =? 0 then []
          else [PadHighOp (RankedTensorType [m'; n'] f32) c1 zero false;
                PadHighOp (RankedTensorType [m'; 3] f16) a one false]).
Proof.
  apply (fills_by_role always always always mixedGemm []
           (logOf (matchAndRewrite always always always mixedGemm []))
           (Opaque 0 (RankedTensorType [5; 3] f16))
           (Opaque 1 (RankedTensorType [3; 16] f32))
           (Opaque 2 (RankedTensorType [5; 16] f32)) 5 16 3 f16 f32 f32).
  - vm_compute; reflexivity.
  - constructor; reflexivity.
  - reflexivity.
  - reflexivity.
  - reflexivity.
Defined.

(* ================================================================== *)
(** ** The unit-stride check on a memref of rank 0 *)

(** C8 at a memref of rank 0 in second position, behind a memref with
    strides (4,1), the helper appending to the vector it is handed: the
    strides computed for the second operand are none, yet the vector still
    holds (4,1) from the first, is not empty and ends in 1, and the check
    returns success. Alone, the same operand is rejected; so it is behind
    the first with a helper that overwrites the vector. *)
Theorem rank0_memref_is_accepted_behind_unit_stride :
  appendStrides (getType rank0) [] = Some ([], 0) /\
  verifyUnitStrideInnerLoop appendStrides {| opOperands := [rank0] |} true
  = Ok (failure, []) /\
  examined appendStrides [] [strided [4; 4] [4; 1]] = Some [4; 1] /\
  appendStrides (getType rank0) [4; 1] = Some ([4; 1], 0) /\
  verifyUnitStrideInnerLoop appendStrides
    {| opOperands := [strided [4; 4] [4; 1]; rank0] |} true
  = Ok (success, []) /\
  checkUnitStrideInnerLoop appendStrides
    {| opOperands := [strided [4; 4] [4; 1]; rank0] |}
  = Ok (success, []) /\
  verifyUnitStrideInnerLoop stridesOfLayout
    {| opOperands := [strided [4; 4] [4; 1]; rank0] |} true
  = Ok (failure, []).
Proof. repeat split; reflexivity. Qed.
